(** * Invite tracker: the persistent store and the attribution engine

    A shallow embedding of [database.py] (class [InviteDatabase]) and of
    [invite_tracker.py] (class [InviteTracker]).

    Modelling conventions.
    - Python [int] values and SQLite INTEGER columns are [Z].  The counters
      are assumed to stay inside SQLite's 64-bit range.
    - A calendar day, which the source writes as the text ["%Y-%m-%d"] and
      SQLite compares as TEXT, is the day number of that date: for four-digit
      years the order on the texts is the order on the day numbers, and
      [datetime.now() - timedelta(days=n)] is the subtraction of [n].
    - The columns [created_at] and [last_updated] receive SQLite's
      CURRENT_TIMESTAMP; no statement of the source reads them and the rows
      below leave them out.
    - A table with a primary key is a [gmap] from the key to the other
      columns.  A Python [dict] whose iteration order the code depends on is
      an association list in insertion order.
    - What the outside world does is an input: the day of the clock, the
      result of each [guild.invites()] ([None] when it raises), the
      permission of the bot, and for each call of the database whether
      sqlite raises.
    - A handler runs from its start to its end before the next one starts. *)

From stdpp Require Import gmap strings list fin_maps sorting pretty.
From Stdlib Require Import ZArith Lia.

Local Open Scope Z_scope.

(** ** database.py *)

Module Database.

(** Row of [invite_stats], keyed by [(user_id, guild_id)]. *)
Record stats_row := StatsRow { total_invites : Z; total_uses : Z }.

(** Row of [invites], keyed by [invite_code]. *)
Record invite_row := InviteRow {
  row_guild_id : Z;
  row_inviter_id : Z;
  row_uses : Z;
  row_max_uses : option Z;
  row_expires_at : option Z;
  row_is_active : bool
}.

(** The three tables created by [init_database].  [daily_stats] is keyed
    by [(user_id, guild_id, date)] and holds [invites_used]. *)
Record Store := MkStore {
  invite_stats : gmap (Z * Z) stats_row;
  invites : gmap string invite_row;
  daily_stats : gmap (Z * Z * Z) Z
}.

Definition empty_store : Store := MkStore ∅ ∅ ∅.

#[export] Instance stats_row_eq_dec : EqDecision stats_row.
Proof. solve_decision. Defined.
#[export] Instance invite_row_eq_dec : EqDecision invite_row.
Proof. solve_decision. Defined.

(** *** The SQL statements *)

(** [INSERT OR IGNORE]: a row whose key is taken is left as it is. *)
Definition insert_or_ignore `{Countable K} {V} (k : K) (v : V)
    (m : gmap K V) : gmap K V :=
  match m !! k with
  | Some _ => m
  | None => <[k := v]> m
  end.

Definition set_uses (n : Z) (r : invite_row) : invite_row :=
  InviteRow (row_guild_id r) (row_inviter_id r) n (row_max_uses r)
            (row_expires_at r) (row_is_active r).

Definition set_inactive (r : invite_row) : invite_row :=
  InviteRow (row_guild_id r) (row_inviter_id r) (row_uses r) (row_max_uses r)
            (row_expires_at r) false.

Definition incr_total_uses (r : stats_row) : stats_row :=
  StatsRow (total_invites r) (total_uses r + 1).

Definition set_total_invites (n : Z) (r : stats_row) : stats_row :=
  StatsRow n (total_uses r).

(** [add_invite]: [INSERT OR REPLACE INTO invites (invite_code, guild_id,
    inviter_id, max_uses, expires_at)].  REPLACE deletes the row that holds
    the key and inserts a new one; the columns that are not listed take
    their defaults, [uses = 0] and [is_active = TRUE]. *)
Definition add_invite_sql (invite_code : string) (guild_id inviter_id : Z)
    (max_uses expires_at : option Z) (s : Store) : Store :=
  MkStore (invite_stats s)
          (<[invite_code :=
               InviteRow guild_id inviter_id 0 max_uses expires_at true]>
             (invites s))
          (daily_stats s).

(** [update_invite_usage]: [UPDATE invites SET uses = ? WHERE invite_code = ?]. *)
Definition update_invite_usage_sql (invite_code : string) (new_uses : Z)
    (s : Store) : Store :=
  MkStore (invite_stats s)
          (alter (set_uses new_uses) invite_code (invites s))
          (daily_stats s).

(** [remove_invite]: [UPDATE invites SET is_active = FALSE WHERE invite_code = ?]. *)
Definition remove_invite_sql (invite_code : string) (s : Store) : Store :=
  MkStore (invite_stats s)
          (alter set_inactive invite_code (invites s))
          (daily_stats s).

(** [record_invite_use]: the four statements of the transaction. *)
Definition record_invite_use_sql (today guild_id inviter_id : Z)
    (s : Store) : Store :=
  let stats1 :=
    insert_or_ignore (inviter_id, guild_id) (StatsRow 0 0) (invite_stats s) in
  let stats2 := alter incr_total_uses (inviter_id, guild_id) stats1 in
  let daily1 :=
    insert_or_ignore (inviter_id, guild_id, today) 0 (daily_stats s) in
  let daily2 := alter (λ n, n + 1) (inviter_id, guild_id, today) daily1 in
  MkStore stats2 (invites s) daily2.

(** [update_invite_count]: [INSERT OR IGNORE] then [UPDATE ... SET
    total_invites = ?]. *)
Definition update_invite_count_sql (guild_id user_id invite_count : Z)
    (s : Store) : Store :=
  let stats1 :=
    insert_or_ignore (user_id, guild_id) (StatsRow 0 0) (invite_stats s) in
  MkStore (alter (set_total_invites invite_count) (user_id, guild_id) stats1)
          (invites s) (daily_stats s).

(** [LIMIT ?]: a negative bound means no bound in SQLite. *)
Definition sql_limit {A} (limit : Z) (l : list A) : list A :=
  if limit <? 0 then l else take (Z.to_nat limit) l.

(** [ORDER BY total_uses DESC, total_invites DESC] on rows
    [(user_id, total_invites, total_uses)]. *)
Definition leaderboard_order (a b : Z * Z * Z) : Prop :=
  b.2 < a.2 ∨ (b.2 = a.2 ∧ b.1.2 ≤ a.1.2).

#[export] Instance leaderboard_order_dec : RelDecision leaderboard_order.
Proof. intros a b. unfold leaderboard_order. apply _. Defined.

(** [get_leaderboard]: [SELECT user_id, total_invites, total_uses FROM
    invite_stats WHERE guild_id = ? ORDER BY ... LIMIT ?]. *)
Definition get_leaderboard_sql (guild_id limit : Z) (s : Store)
    : list (Z * Z * Z) :=
  let rows :=
    filter (λ kv : Z * Z * stats_row, kv.1.2 = guild_id)
           (map_to_list (invite_stats s)) in
  let selected :=
    (λ kv : Z * Z * stats_row,
       (kv.1.1, total_invites kv.2, total_uses kv.2)) <$> rows in
  sql_limit limit (merge_sort leaderboard_order selected).

Definition sum_Z (l : list Z) : Z := foldr Z.add 0 l.

(** [ORDER BY recent_uses DESC] on rows [(user_id, recent_uses)]. *)
Definition recent_order (a b : Z * Z) : Prop := b.2 ≤ a.2.

#[export] Instance recent_order_dec : RelDecision recent_order.
Proof. intros a b. unfold recent_order. apply _. Defined.

#[export] Instance recent_order_trans : Transitive recent_order.
Proof. unfold recent_order. intros a b c. lia. Qed.

#[export] Instance recent_order_total : Total recent_order.
Proof. unfold recent_order. intros a b. lia. Qed.

(** The rows of [daily_stats] selected by [WHERE guild_id = ? AND date >= ?]. *)
Definition daily_where (guild_id cutoff_date : Z) (s : Store)
    : list (Z * Z * Z * Z) :=
  filter (λ kv : Z * Z * Z * Z, kv.1.1.2 = guild_id ∧ cutoff_date ≤ kv.1.2)
         (map_to_list (daily_stats s)).

(** [GROUP BY user_id] with [SUM(invites_used)]: one row per user that has
    a selected row. *)
Definition group_by_user (rows : list (Z * Z * Z * Z)) : list (Z * Z) :=
  (λ u, (u, sum_Z (snd <$> filter (λ kv : Z * Z * Z * Z, kv.1.1.1 = u) rows)))
    <$> remove_dups ((λ kv : Z * Z * Z * Z, kv.1.1.1) <$> rows).

(** [get_daily_leaderboard]: [cutoff_date] is [now - timedelta(days)]. *)
Definition get_daily_leaderboard_sql (today guild_id days limit : Z)
    (s : Store) : list (Z * Z) :=
  let cutoff_date := today - days in
  sql_limit limit
    (merge_sort recent_order
       (group_by_user (daily_where guild_id cutoff_date s))).

(** [get_user_stats]: [fetchone()] and [result if result else (0, 0)]. *)
Definition get_user_stats_sql (guild_id user_id : Z) (s : Store) : Z * Z :=
  match invite_stats s !! (user_id, guild_id) with
  | Some r => (total_invites r, total_uses r)
  | None => (0, 0)
  end.

(** *** The methods

    Every method runs its statements in [with sqlite3.connect(...)] inside
    [try ... except sqlite3.Error]: when sqlite raises, the transaction is
    rolled back, the error is logged and the method returns its neutral
    value.  Whether sqlite raises is decided by the environment:
    [sqlite_errors] lists, for the coming calls in order, whether the call
    raises; once the list is used up no call raises. *)
Record InviteDatabase := MkDb {
  tables : Store;
  sqlite_errors : list bool
}.

Definition raises (db : InviteDatabase) : bool :=
  match sqlite_errors db with
  | e :: _ => e
  | [] => false
  end.

Definition transaction (body : Store → Store) (db : InviteDatabase)
    : InviteDatabase :=
  MkDb (if raises db then tables db else body (tables db))
       (tail (sqlite_errors db)).

Definition query {A} (neutral : A) (body : Store → A) (db : InviteDatabase)
    : A * InviteDatabase :=
  (if raises db then neutral else body (tables db),
   MkDb (tables db) (tail (sqlite_errors db))).

Definition add_invite (invite_code : string) (guild_id inviter_id : Z)
    (max_uses expires_at : option Z) : InviteDatabase → InviteDatabase :=
  transaction (add_invite_sql invite_code guild_id inviter_id max_uses expires_at).

Definition update_invite_usage (invite_code : string) (new_uses : Z)
    : InviteDatabase → InviteDatabase :=
  transaction (update_invite_usage_sql invite_code new_uses).

Definition remove_invite (invite_code : string)
    : InviteDatabase → InviteDatabase :=
  transaction (remove_invite_sql invite_code).

(** [today] is what [datetime.now().strftime("%Y-%m-%d")] gives at the call. *)
Definition record_invite_use (today guild_id inviter_id : Z)
    : InviteDatabase → InviteDatabase :=
  transaction (record_invite_use_sql today guild_id inviter_id).

Definition update_invite_count (guild_id user_id invite_count : Z)
    : InviteDatabase → InviteDatabase :=
  transaction (update_invite_count_sql guild_id user_id invite_count).

Definition get_leaderboard (guild_id limit : Z)
    : InviteDatabase → list (Z * Z * Z) * InviteDatabase :=
  query [] (get_leaderboard_sql guild_id limit).

Definition get_daily_leaderboard (today guild_id days limit : Z)
    : InviteDatabase → list (Z * Z) * InviteDatabase :=
  query [] (get_daily_leaderboard_sql today guild_id days limit).

Definition get_user_stats (guild_id user_id : Z)
    : InviteDatabase → (Z * Z) * InviteDatabase :=
  query (0, 0) (get_user_stats_sql guild_id user_id).

(** Readers used in the statements below. *)
Definition credited (s : Store) (guild_id user_id : Z) : Z :=
  (get_user_stats_sql guild_id user_id s).2.

Definition created (s : Store) (guild_id user_id : Z) : Z :=
  (get_user_stats_sql guild_id user_id s).1.

Definition daily_count (s : Store) (guild_id user_id date : Z) : Z :=
  default 0 (daily_stats s !! (user_id, guild_id, date)).

Definition stored_uses (s : Store) (invite_code : string) : option Z :=
  row_uses <$> invites s !! invite_code.

(** The sum of [invites_used] of one user of one guild over the days
    [first], [first + 1], ..., [last]; a day without a row counts 0. *)
Definition uses_between (s : Store) (guild_id user_id first last : Z) : Z :=
  sum_Z ((λ d, daily_count s guild_id user_id d) <$> seqZ first (last - first + 1)).

(** The [SUM(invites_used)] that [get_daily_leaderboard] computes for the
    group of one user. *)
Definition group_sum (m : gmap (Z * Z * Z) Z) (g u cutoff_date : Z) : Z :=
  sum_Z (snd <$> filter (λ kv : Z * Z * Z * Z, kv.1.1.1 = u)
                   (filter (λ kv : Z * Z * Z * Z,
                              kv.1.1.2 = g ∧ cutoff_date ≤ kv.1.2)
                           (map_to_list m))).

(** A sequence of calls of [record_invite_use], one call per element
    [(today, guild_id, inviter_id)] of [calls]; [today] is the day of the
    clock at that call. *)
Definition record_invite_uses (calls : list (Z * Z * Z))
    (db : InviteDatabase) : InviteDatabase :=
  foldl (λ db' c, record_invite_use c.1.1 c.1.2 c.2 db') db calls.

(** The calls of a sequence that credit the user [u] of the guild [g]. *)
Definition calls_for (g u : Z) (calls : list (Z * Z * Z)) : list (Z * Z * Z) :=
  filter (λ c : Z * Z * Z, c.1.2 = g ∧ c.2 = u) calls.

(** None of the next [n] calls raises. *)
Definition no_sqlite_error (n : nat) (db : InviteDatabase) : Prop :=
  Forall (λ e, e = false) (take n (sqlite_errors db)).

#[export] Instance no_sqlite_error_dec n db : Decision (no_sqlite_error n db).
Proof. unfold no_sqlite_error. apply _. Defined.

#[export] Instance leaderboard_order_trans : Transitive leaderboard_order.
Proof. unfold leaderboard_order. intros a b c. lia. Qed.

#[export] Instance leaderboard_order_total : Total leaderboard_order.
Proof. unfold leaderboard_order. intros a b. lia. Qed.

(** A call of one of the writing methods of [InviteDatabase], with its
    arguments ([today] is the day of the clock at a [record_invite_use]). *)
Inductive db_call :=
  | AddInvite (invite_code : string) (guild_id inviter_id : Z)
              (max_uses expires_at : option Z)
  | UpdateInviteUsage (invite_code : string) (new_uses : Z)
  | RemoveInvite (invite_code : string)
  | RecordInviteUse (today guild_id inviter_id : Z)
  | UpdateInviteCount (guild_id user_id invite_count : Z).

Definition run_call (c : db_call) : InviteDatabase → InviteDatabase :=
  match c with
  | AddInvite k g i m e => add_invite k g i m e
  | UpdateInviteUsage k n => update_invite_usage k n
  | RemoveInvite k => remove_invite k
  | RecordInviteUse d g u => record_invite_use d g u
  | UpdateInviteCount g u n => update_invite_count g u n
  end.

(** The statements that a call runs when sqlite does not raise. *)
Definition call_sql (c : db_call) : Store → Store :=
  match c with
  | AddInvite k g i m e => add_invite_sql k g i m e
  | UpdateInviteUsage k n => update_invite_usage_sql k n
  | RemoveInvite k => remove_invite_sql k
  | RecordInviteUse d g u => record_invite_use_sql d g u
  | UpdateInviteCount g u n => update_invite_count_sql g u n
  end.

(** The calls of a list, made one after the other. *)
Definition run_calls (calls : list db_call) (db : InviteDatabase)
    : InviteDatabase :=
  foldl (λ db' c, run_call c db') db calls.

(** The calls of [record_invite_use] for the user [u] of the guild [g]. *)
Definition is_credit (g u : Z) (c : db_call) : bool :=
  match c with
  | RecordInviteUse _ g' u' => bool_decide (g' = g ∧ u' = u)
  | _ => false
  end.

Definition credits_for (g u : Z) (calls : list db_call) : nat :=
  length (filter (λ c, is_credit g u c = true) calls).

(** The count passed by the last [update_invite_count] for the user [u] of
    the guild [g], if there is one. *)
Fixpoint last_count (g u : Z) (calls : list db_call) : option Z :=
  match calls with
  | [] => None
  | c :: calls' =>
      match last_count g u calls' with
      | Some n => Some n
      | None =>
          match c with
          | UpdateInviteCount g' u' n =>
              if decide (g' = g ∧ u' = u) then Some n else None
          | _ => None
          end
      end
  end.

End Database.

(** ** invite_tracker.py *)

Module Tracker.
Import Database.

(** The fields of [discord.Invite] that the tracker reads.  [inviter] holds
    the id of [invite.inviter], [None] when the invite has no inviter. *)
Record Invite := MkInvite {
  code : string;
  inviter : option Z;
  uses : Z;
  max_uses : option Z;
  expires_at : option Z
}.

#[export] Instance Invite_eq_dec : EqDecision Invite.
Proof. solve_decision. Defined.

(** [guild.id] and [guild.me.guild_permissions.manage_guild]. *)
Record Guild := MkGuild { guild_id : Z; manage_guild : bool }.

(** The inner dictionary [Dict[str, discord.Invite]], in insertion order. *)
Abbreviation invite_dict := (list (string * Invite)).

(** [d[k] = v]: an existing key keeps its place, a new key goes last. *)
Fixpoint dict_set (k : string) (v : Invite) (d : invite_dict) : invite_dict :=
  match d with
  | [] => [(k, v)]
  | (k', v') :: d' =>
      if decide (k = k') then (k, v) :: d' else (k', v') :: dict_set k v d'
  end.

(** [d.get(k)] *)
Fixpoint dict_get (k : string) (d : invite_dict) : option Invite :=
  match d with
  | [] => None
  | (k', v') :: d' => if decide (k = k') then Some v' else dict_get k d'
  end.

(** [if k in d: del d[k]] *)
Fixpoint dict_del (k : string) (d : invite_dict) : invite_dict :=
  match d with
  | [] => []
  | (k', v') :: d' => if decide (k = k') then d' else (k', v') :: dict_del k d'
  end.

(** [{invite.code: invite for invite in invites}] *)
Definition dict_of_invites (invites : list Invite) : invite_dict :=
  foldl (λ d invite, dict_set (code invite) invite d) [] invites.

(** The tracker object: [self.invite_cache] and [self.db]. *)
Record InviteTracker := MkTracker {
  invite_cache : gmap Z invite_dict;
  db : InviteDatabase
}.

Definition with_db (f : InviteDatabase → InviteDatabase) (t : InviteTracker)
    : InviteTracker :=
  MkTracker (invite_cache t) (f (db t)).

Definition with_cache (f : gmap Z invite_dict → gmap Z invite_dict)
    (t : InviteTracker) : InviteTracker :=
  MkTracker (f (invite_cache t)) (db t).

(** [self.invite_cache[guild.id][k] = v].  Every call site has made sure
    that the guild has an entry. *)
Definition cache_setitem (g : Z) (k : string) (v : Invite)
    : InviteTracker → InviteTracker :=
  with_cache (alter (dict_set k v) g).

(** [if k in self.invite_cache[guild.id]: del self.invite_cache[guild.id][k]] *)
Definition cache_delitem (g : Z) (k : string)
    : InviteTracker → InviteTracker :=
  with_cache (alter (dict_del k) g).

(** [invite.inviter.id if invite.inviter else 0] *)
Definition inviter_id_or_0 (invite : Invite) : Z :=
  match inviter invite with
  | Some id => id
  | None => 0
  end.

(** The body of the loop of [cache_invites]. *)
Definition cache_one (guild : Guild) (t : InviteTracker) (invite : Invite)
    : InviteTracker :=
  let t1 := cache_setitem (guild_id guild) (code invite) invite t in
  let t2 :=
    with_db (add_invite (code invite) (guild_id guild) (inviter_id_or_0 invite)
                        (max_uses invite) (expires_at invite)) t1 in
  with_db (update_invite_usage (code invite) (uses invite)) t2.

(** [cache_invites].  [fetched] is the result of [await guild.invites()],
    [None] when the call raises ([discord.Forbidden] or another exception,
    both caught by the method). *)
Definition cache_invites (guild : Guild) (fetched : option (list Invite))
    (t : InviteTracker) : InviteTracker :=
  if negb (manage_guild guild) then t
  else
    match fetched with
    | None => t
    | Some invites =>
        foldl (cache_one guild)
              (with_cache (<[guild_id guild := []]>) t) invites
    end.

(** [invite_counts[id] = invite_counts.get(id, 0) + 1] on the dictionary
    [invite_counts], kept in insertion order. *)
Fixpoint counts_incr (id : Z) (counts : list (Z * Z)) : list (Z * Z) :=
  match counts with
  | [] => [(id, 0 + 1)]
  | (id', n) :: counts' =>
      if decide (id = id') then (id', n + 1) :: counts'
      else (id', n) :: counts_incr id counts'
  end.

(** [invite_counts.get(id, 0)] *)
Fixpoint counts_get (id : Z) (counts : list (Z * Z)) : Z :=
  match counts with
  | [] => 0
  | (id', n) :: counts' => if decide (id = id') then n else counts_get id counts'
  end.

(** The body of the first loop of [update_invite_counts]:
    [if invite.inviter: invite_counts[...] = ... + 1]. *)
Definition count_step (counts : list (Z * Z)) (kv : string * Invite)
    : list (Z * Z) :=
  match inviter kv.2 with
  | Some id => counts_incr id counts
  | None => counts
  end.

(** The first loop of [update_invite_counts], over
    [self.invite_cache[guild.id].values()]. *)
Definition invite_counts (d : invite_dict) : list (Z * Z) :=
  foldl count_step [] d.

(** [update_invite_counts].  [fetched] is what [guild.invites()] returns if
    the method has to call [cache_invites]. *)
Definition update_invite_counts (guild : Guild) (fetched : option (list Invite))
    (t : InviteTracker) : InviteTracker :=
  match invite_cache t !! guild_id guild with
  | None => cache_invites guild fetched t
  | Some d =>
      foldl (λ t' uc, with_db (update_invite_count (guild_id guild) uc.1 uc.2) t')
            t (invite_counts d)
  end.

(** [on_invite_create] *)
Definition on_invite_create (guild : Guild) (invite : Invite)
    (fetched : option (list Invite)) (t : InviteTracker) : InviteTracker :=
  let t0 :=
    match invite_cache t !! guild_id guild with
    | None => with_cache (<[guild_id guild := []]>) t
    | Some _ => t
    end in
  let t1 := cache_setitem (guild_id guild) (code invite) invite t0 in
  let t2 :=
    with_db (add_invite (code invite) (guild_id guild) (inviter_id_or_0 invite)
                        (max_uses invite) (expires_at invite)) t1 in
  update_invite_counts guild fetched t2.

(** [on_invite_delete].  Of the deleted invite only [invite.code] is read. *)
Definition on_invite_delete (guild : Guild) (invite_code : string)
    (fetched : option (list Invite)) (t : InviteTracker) : InviteTracker :=
  let t1 := cache_delitem (guild_id guild) invite_code t in
  let t2 := with_db (remove_invite invite_code) t1 in
  update_invite_counts guild fetched t2.

(** [if inviter_id: await self.db.record_invite_use(guild.id, inviter_id)] *)
Definition credit_inviter (guild : Guild) (today : Z) (old_invite : Invite)
    (t : InviteTracker) : InviteTracker :=
  let inviter_id := inviter_id_or_0 old_invite in
  if decide (inviter_id ≠ 0)
  then with_db (record_invite_use today (guild_id guild) inviter_id) t
  else t.

(** The loop of [on_member_join] over [self.invite_cache[guild.id].items()].
    The dictionary is changed only right before a [break], so the loop runs
    over the items it had at the start. *)
Fixpoint compare_with_cached (guild : Guild) (today : Z)
    (current_invite_dict : invite_dict) (items : invite_dict)
    (t : InviteTracker) : InviteTracker :=
  match items with
  | [] => t
  | (code, old_invite) :: rest =>
      match dict_get code current_invite_dict with
      | Some current_invite =>
          if decide (uses old_invite < uses current_invite) then
            let t1 := credit_inviter guild today old_invite t in
            let t2 := cache_setitem (guild_id guild) code current_invite t1 in
            with_db (update_invite_usage code (uses current_invite)) t2
          else compare_with_cached guild today current_invite_dict rest t
      | None =>
          if decide (max_uses old_invite = Some 1) then
            let t1 := credit_inviter guild today old_invite t in
            cache_delitem (guild_id guild) code t1
          else compare_with_cached guild today current_invite_dict rest t
      end
  end.

(** The part of [on_member_join] between the fetch and the final
    [cache_invites]. *)
Definition find_used_invite (guild : Guild) (today : Z)
    (current_invites : list Invite) (t : InviteTracker) : InviteTracker :=
  match invite_cache t !! guild_id guild with
  | Some cached =>
      compare_with_cached guild today (dict_of_invites current_invites) cached t
  | None => t
  end.

(** [on_member_join].  [current] is the result of the first
    [guild.invites()], [refetched] that of the one inside the final
    [cache_invites]; [today] is the day of the clock when the join is
    recorded. *)
Definition on_member_join (guild : Guild) (today : Z)
    (current refetched : option (list Invite)) (t : InviteTracker)
    : InviteTracker :=
  if negb (manage_guild guild) then t
  else
    match current with
    | None => t
    | Some current_invites =>
        cache_invites guild refetched
          (find_used_invite guild today current_invites t)
    end.

(** [get_invite_stats] *)
Definition get_invite_stats (guild : Guild) (user_id : Z) (t : InviteTracker)
    : (Z * Z) * InviteTracker :=
  let '(r, db') := get_user_stats (guild_id guild) user_id (db t) in
  (r, MkTracker (invite_cache t) db').

(** The row of [invites] that [cache_invites] leaves for a fetched invite:
    [add_invite] followed by [update_invite_usage]. *)
Definition cached_row (guild : Guild) (invite : Invite) : invite_row :=
  InviteRow (guild_id guild) (inviter_id_or_0 invite) (uses invite)
            (max_uses invite) (expires_at invite) true.

(** The tracker right after [__init__], on a database without rows. *)
Definition new_tracker (errors : list bool) : InviteTracker :=
  MkTracker ∅ (MkDb empty_store errors).

(** Every dictionary of the cache has distinct keys, as a Python [dict] has. *)
Definition cache_wf (t : InviteTracker) : Prop :=
  map_Forall (λ _ d, NoDup d.*1) (invite_cache t).

(** Every cached code has a row in the table [invites]. *)
Definition cached_rows_stored (t : InviteTracker) : Prop :=
  ∀ g d k, invite_cache t !! g = Some d → k ∈ d.*1 →
           is_Some (invites (tables (db t)) !! k).

(** A method of the database that deletes no row of [invites]. *)
Definition keeps_rows (f : InviteDatabase → InviteDatabase) : Prop :=
  ∀ d k, is_Some (invites (tables d) !! k) → is_Some (invites (tables (f d)) !! k).

(** Between [t] and [t'] nothing of a guild other than [g] has changed:
    neither its cache nor its rows of [invite_stats] and [daily_stats]. *)
Definition same_elsewhere (g : Z) (t t' : InviteTracker) : Prop :=
  (∀ g', g' ≠ g → invite_cache t' !! g' = invite_cache t !! g')
  ∧ (∀ g' u, g' ≠ g →
       invite_stats (tables (db t')) !! (u, g')
       = invite_stats (tables (db t)) !! (u, g'))
  ∧ (∀ g' u d, g' ≠ g →
       daily_stats (tables (db t')) !! (u, g', d)
       = daily_stats (tables (db t)) !! (u, g', d)).

(** A tracker that has met no storage error so far and meets none later:
    the keys of its cached dictionaries are distinct and every cached code
    has its row. *)
Definition steady (t : InviteTracker) : Prop :=
  sqlite_errors (db t) = [] ∧ cache_wf t ∧ cached_rows_stored t.

(** A cached entry to which neither branch of the loop of [on_member_join]
    applies: its code is in the fresh dictionary without more uses, or its
    code is missing there and the cached invite is not a single-use one. *)
Definition unchanged_entry (current_invite_dict : invite_dict)
    (kv : string * Invite) : Prop :=
  match dict_get kv.1 current_invite_dict with
  | Some current_invite => ¬ uses kv.2 < uses current_invite
  | None => max_uses kv.2 ≠ Some 1
  end.

#[export] Instance unchanged_entry_dec c kv : Decision (unchanged_entry c kv).
Proof. unfold unchanged_entry. destruct (dict_get kv.1 c); apply _. Defined.

(** The invariant of the first loop of [update_invite_counts]: distinct
    keys, every count at least 1. *)
Definition counts_ok (counts : list (Z * Z)) : Prop :=
  NoDup counts.*1 ∧ ∀ u, u ∈ counts.*1 → 0 < counts_get u counts.

(** The number of invites in the cache of a guild whose inviter is [user_id]. *)
Definition cached_invites_of (t : InviteTracker) (g user_id : Z) : Z :=
  Z.of_nat (length (filter (λ kv : string * Invite, inviter kv.2 = Some user_id)
                           (default [] (invite_cache t !! g)))).

End Tracker.

(** ** bot.py *)

Module Bot.
Import Database Tracker.

(** The bot object: [self.invite_tracker] and [self._is_ready]. *)
Record InviteBot := MkBot {
  invite_tracker : InviteTracker;
  is_ready : bool
}.

(** [await self.invite_tracker.cache_invites(guild)] followed by
    [await self.invite_tracker.update_invite_counts(guild)]: the body of
    [on_guild_join], of the loop of [on_ready] and of [refresh_command].
    [fetched] is the result of [guild.invites()] in [cache_invites] and
    [refetched] that of the call that [update_invite_counts] makes when the
    guild is still not cached. *)
Definition cache_and_count (guild : Guild)
    (fetched refetched : option (list Invite)) (t : InviteTracker)
    : InviteTracker :=
  update_invite_counts guild refetched (cache_invites guild fetched t).

(** [on_guild_join] *)
Definition on_guild_join (guild : Guild)
    (fetched refetched : option (list Invite)) (b : InviteBot) : InviteBot :=
  MkBot (cache_and_count guild fetched refetched (invite_tracker b)) (is_ready b).

(** [on_ready].  [guilds] lists [self.guilds], each with the results of its
    fetches. *)
Definition on_ready
    (guilds : list (Guild * option (list Invite) * option (list Invite)))
    (b : InviteBot) : InviteBot :=
  if is_ready b then b
  else
    MkBot (foldl (λ t v, cache_and_count v.1.1 v.1.2 v.2 t) (invite_tracker b) guilds)
          true.

(** The state of the tracker after the guilds [done] have been visited. *)
Definition visited_ok
    (done : list (Guild * option (list Invite) * option (list Invite)))
    (t : InviteTracker) : Prop :=
  sqlite_errors (db t) = []
  ∧ (∀ guild l r, (guild, Some l, r) ∈ done →
       invite_cache t !! guild_id guild = Some (dict_of_invites l)
       ∧ ∀ u, created (tables (db t)) (guild_id guild) u
              = cached_invites_of t (guild_id guild) u)
  ∧ (∀ g u, g ∉ guild_id <$> done.*1.*1 → created (tables (db t)) g u = 0).

(** The bot right after [__init__], on a database without rows. *)
Definition new_bot (errors : list bool) : InviteBot :=
  MkBot (new_tracker errors) false.

End Bot.

(** ** leaderboard.py *)

Module Leaderboard.
Import Database Tracker.

(** A field of a [discord.Embed]: [add_field(name, value, inline)]. *)
Record Field := MkField {
  field_name : string;
  field_value : string;
  field_inline : bool
}.

(** The parts of a [discord.Embed] that the manager sets.  [timestamp] is
    [datetime.now()] when given; [footer] is the text and the icon url. *)
Record Embed := MkEmbed {
  title : string;
  description : option string;
  color : Z;
  timestamp : option Z;
  thumbnail : option string;
  fields : list Field;
  footer : option (string * option string)
}.

(** What the manager reads of a guild: [guild.id] (in [info_guild]),
    [guild.name], [guild.icon.url] when there is an icon, and the
    [display_name] of the members that [guild.get_member] finds. *)
Record GuildInfo := MkGuildInfo {
  info_guild : Guild;
  guild_name : string;
  guild_icon_url : option string;
  guild_members : gmap Z string
}.

(** What the manager reads of a [discord.Member]. *)
Record MemberInfo := MkMemberInfo {
  member_id : Z;
  display_name : string;
  avatar_url : string
}.

Definition newline : string := String (Ascii.ascii_of_nat 10) "".

(** [str.lower()] on the ASCII labels of the source. *)
Definition lower_char (c : Ascii.ascii) : Ascii.ascii :=
  let n := Ascii.nat_of_ascii c in
  if (65 <=? n)%nat && (n <=? 90)%nat then Ascii.ascii_of_nat (n + 32) else c.

Fixpoint lower (s : string) : string :=
  match s with
  | EmptyString => EmptyString
  | String c s' => String (lower_char c) (lower s')
  end.

Definition medals : list string := ["🥇"; "🥈"; "🥉"].

(** [medals[i] if i < 3 else f"{i + 1}."] *)
Definition rank_label (i : nat) : string :=
  if decide (i < 3)%nat then default "" (medals !! i)
  else pretty (Z.of_nat i + 1) +:+ ".".

(** The user name of an entry: the [display_name] of the member, else the
    name of the fetched user with [" (Left Server)"], else, when
    [fetch_user] raises ([None]), ["Unknown User (id)"]. *)
Definition resolve_username (fetch_user : Z → option string)
    (gi : GuildInfo) (user_id : Z) : string :=
  match guild_members gi !! user_id with
  | Some name => name
  | None =>
      match fetch_user user_id with
      | Some name => name +:+ " (Left Server)"
      | None => "Unknown User (" +:+ pretty user_id +:+ ")"
      end
  end.

(** The line that the loop of [create_leaderboard_embed] adds for the
    entry number [i]. *)
Definition leaderboard_line (fetch_user : Z → option string)
    (gi : GuildInfo) (value_label : string) (i : nat) (entry : Z * Z) : string :=
  rank_label i +:+ " **" +:+ resolve_username fetch_user gi entry.1
    +:+ "** - " +:+ pretty entry.2 +:+ " " +:+ lower value_label +:+ newline.

Definition is_daily (leaderboard_type : string) : bool :=
  bool_decide (leaderboard_type = "daily").

(** The query of [create_leaderboard_embed], each entry as
    [(user_id, invite_count)]: [get_daily_leaderboard(guild.id, days=7,
    limit=10)] for the type ["daily"], else [get_leaderboard(guild.id,
    limit=10)], of which the loop reads [user_id] and [total_uses]. *)
Definition leaderboard_data (today : Z) (gi : GuildInfo)
    (leaderboard_type : string) (db : InviteDatabase)
    : list (Z * Z) * InviteDatabase :=
  if is_daily leaderboard_type then
    get_daily_leaderboard today (guild_id (info_guild gi)) 7 10 db
  else
    let '(data, db') := get_leaderboard (guild_id (info_guild gi)) 10 db in
    ((λ e : Z * Z * Z, (e.1.1, e.2)) <$> data, db').

Definition leaderboard_title (leaderboard_type : string) : string :=
  if is_daily leaderboard_type then "📊 Weekly Invite Leaderboard"
  else "🏆 All-Time Invite Leaderboard".

Definition leaderboard_description (leaderboard_type : string) : string :=
  if is_daily leaderboard_type then "Top inviters from the past 7 days"
  else "Top inviters of all time".

Definition leaderboard_value_label (leaderboard_type : string) : string :=
  if is_daily leaderboard_type then "Recent Invites" else "Total Invites Used".

Definition concat_lines (lines : list string) : string :=
  foldr String.append "" lines.

(** [create_leaderboard_embed].  [now] is [datetime.now()] and [today] its
    day.  No step of the body raises here ([fetch_user] is guarded by its
    own [try]), so the error embed of the outer [except] is not built. *)
Definition create_leaderboard_embed (now today : Z)
    (fetch_user : Z → option string) (gi : GuildInfo)
    (leaderboard_type : string) (db : InviteDatabase)
    : Embed * InviteDatabase :=
  let '(data, db') := leaderboard_data today gi leaderboard_type db in
  let value_label := leaderboard_value_label leaderboard_type in
  let embed :=
    MkEmbed (leaderboard_title leaderboard_type)
            (Some (leaderboard_description leaderboard_type))
            5793266 (Some now) None [] None in
  match data with
  | [] =>
      (MkEmbed (title embed) (description embed) (color embed)
               (timestamp embed) (thumbnail embed)
               [MkField "No Data Available"
                        "No invite statistics found for this server." false]
               None,
       db')
  | _ :: _ =>
      let leaderboard_text :=
        concat_lines (imap (leaderboard_line fetch_user gi value_label) data) in
      (MkEmbed (title embed) (description embed) (color embed)
               (timestamp embed) (thumbnail embed)
               [MkField value_label
                        (if decide (leaderboard_text = "")
                         then "No data available" else leaderboard_text)
                        false]
               (Some ("Requested by " +:+ guild_name gi, guild_icon_url gi)),
       db')
  end.

(** [create_user_stats_embed].  [format_rate total_invites total_uses]
    stands for [f"{(total_uses / total_invites) * 100:.1f}%"], a floating
    point computation that is left as a parameter. *)
Definition create_user_stats_embed (now : Z)
    (format_rate : Z → Z → string) (gi : GuildInfo) (user : MemberInfo)
    (db : InviteDatabase) : Embed * InviteDatabase :=
  let '((total_invites, total_uses), db') :=
    get_user_stats (guild_id (info_guild gi)) (member_id user) db in
  let base :=
    [MkField "Total Invites Created" (pretty total_invites) true;
     MkField "Total Successful Invites" (pretty total_uses) true] in
  let rate :=
    if decide (0 < total_invites)
    then [MkField "Success Rate" (format_rate total_invites total_uses) true]
    else [] in
  (MkEmbed ("📈 Invite Statistics for " +:+ display_name user) None 5793266
           (Some now) (Some (avatar_url user)) (base ++ rate)
           (Some ("User ID: " +:+ pretty (member_id user), None)),
   db').

End Leaderboard.

(** ** Properties of the store *)

Module DatabaseFacts.
Import Database.

Section insert_or_ignore.
Context `{Countable K} {V : Type}.
Implicit Types (m : gmap K V) (k : K) (v : V).

Lemma lookup_insert_or_ignore_eq m k v :
  insert_or_ignore k v m !! k = Some (default v (m !! k)).
Proof.
  unfold insert_or_ignore. destruct (m !! k) as [w|] eqn:Hk; simpl.
  - exact Hk.
  - apply lookup_insert_eq.
Qed.

Lemma lookup_insert_or_ignore_ne m k k' v :
  k ≠ k' → insert_or_ignore k v m !! k' = m !! k'.
Proof.
  intros Hne. unfold insert_or_ignore.
  destruct (m !! k); [reflexivity | by apply lookup_insert_ne].
Qed.

End insert_or_ignore.

(** *** One committed transaction of [record_invite_use] *)

Lemma record_invite_use_sql_credited today g u s :
  credited (record_invite_use_sql today g u s) g u = credited s g u + 1.
Proof.
  unfold credited, get_user_stats_sql, record_invite_use_sql. simpl.
  rewrite lookup_alter_eq, lookup_insert_or_ignore_eq.
  destruct (invite_stats s !! (u, g)); reflexivity.
Qed.

Lemma record_invite_use_sql_daily today g u s :
  daily_count (record_invite_use_sql today g u s) g u today
  = daily_count s g u today + 1.
Proof.
  unfold daily_count, record_invite_use_sql. simpl.
  rewrite lookup_alter_eq, lookup_insert_or_ignore_eq.
  destruct (daily_stats s !! (u, g, today)); reflexivity.
Qed.

Lemma record_invite_use_sql_created today g u s g' u' :
  created (record_invite_use_sql today g u s) g' u' = created s g' u'.
Proof.
  unfold created, get_user_stats_sql, record_invite_use_sql. simpl.
  destruct (decide ((u, g) = (u', g'))) as [[= -> ->]|Hne].
  - rewrite lookup_alter_eq, lookup_insert_or_ignore_eq.
    destruct (invite_stats s !! (u', g')); reflexivity.
  - rewrite lookup_alter_ne, lookup_insert_or_ignore_ne by done. reflexivity.
Qed.

Lemma record_invite_use_sql_other_stats today g u s k :
  k ≠ (u, g) →
  invite_stats (record_invite_use_sql today g u s) !! k = invite_stats s !! k.
Proof.
  intros Hne. unfold record_invite_use_sql. simpl.
  rewrite lookup_alter_ne, lookup_insert_or_ignore_ne by done. reflexivity.
Qed.

Lemma record_invite_use_sql_other_daily today g u s k :
  k ≠ (u, g, today) →
  daily_stats (record_invite_use_sql today g u s) !! k = daily_stats s !! k.
Proof.
  intros Hne. unfold record_invite_use_sql. simpl.
  rewrite lookup_alter_ne, lookup_insert_or_ignore_ne by done. reflexivity.
Qed.

(** *** Sequences of calls *)

Lemma record_invite_uses_cons c calls db :
  record_invite_uses (c :: calls) db
  = record_invite_uses calls (record_invite_use c.1.1 c.1.2 c.2 db).
Proof. reflexivity. Qed.

Lemma record_invite_uses_snoc calls c db :
  record_invite_uses (calls ++ [c]) db
  = record_invite_use c.1.1 c.1.2 c.2 (record_invite_uses calls db).
Proof. unfold record_invite_uses. by rewrite foldl_app. Qed.

Lemma record_invite_uses_errors calls db :
  sqlite_errors (record_invite_uses calls db)
  = drop (length calls) (sqlite_errors db).
Proof.
  revert db. induction calls as [|c calls IH]; intros db; [done|].
  rewrite record_invite_uses_cons, IH. simpl.
  destruct (sqlite_errors db); simpl; [by rewrite drop_nil | done].
Qed.

Lemma no_sqlite_error_raises n db :
  no_sqlite_error (S n) db → raises db = false.
Proof.
  unfold no_sqlite_error, raises. destruct (sqlite_errors db) as [|e es]; [done|].
  simpl. by inversion 1.
Qed.

Lemma no_sqlite_error_step n f db :
  no_sqlite_error (S n) db → no_sqlite_error n (transaction f db).
Proof.
  unfold no_sqlite_error, transaction. simpl.
  destruct (sqlite_errors db) as [|e es]; simpl.
  - intros _. by rewrite take_nil.
  - by inversion 1.
Qed.

Lemma no_sqlite_error_le n m db :
  (n ≤ m)%nat → no_sqlite_error m db → no_sqlite_error n db.
Proof.
  unfold no_sqlite_error. intros Hle Hm.
  rewrite <- (Nat.min_l n m), <- take_take by done. by apply Forall_take.
Qed.

Lemma no_sqlite_error_after pre n db :
  no_sqlite_error (length pre + n) db →
  no_sqlite_error n (record_invite_uses pre db).
Proof.
  unfold no_sqlite_error. rewrite record_invite_uses_errors.
  intros Hall. rewrite take_drop_commute. by apply Forall_drop.
Qed.

Lemma record_invite_uses_credited g u calls db :
  no_sqlite_error (length calls) db →
  credited (tables (record_invite_uses calls db)) g u
  = credited (tables db) g u + Z.of_nat (length (calls_for g u calls)).
Proof.
  revert db. induction calls as [|[[d g'] u'] calls IH]; intros db Hok.
  - simpl. lia.
  - rewrite record_invite_uses_cons, IH by (by apply no_sqlite_error_step).
    unfold record_invite_use, transaction. simpl tables.
    rewrite (no_sqlite_error_raises _ _ Hok).
    unfold calls_for. rewrite filter_cons. simpl.
    destruct (decide (g' = g ∧ u' = u)) as [[-> ->]|Hne].
    + rewrite record_invite_use_sql_credited. simpl length. lia.
    + unfold credited, get_user_stats_sql.
      rewrite record_invite_use_sql_other_stats; [done|].
      intros [= -> ->]. by apply Hne.
Qed.

Lemma calls_for_all g u calls :
  Forall (λ c : Z * Z * Z, c.1.2 = g ∧ c.2 = u) calls →
  calls_for g u calls = calls.
Proof.
  unfold calls_for. induction 1 as [|c calls Hc _ IH]; [done|].
  by rewrite filter_cons_True, IH.
Qed.

(** C1.  Take any sequence of calls of [record_invite_use] in which no call
    meets a storage error.  The final [total_uses] of a user of a guild is
    the initial one (0 when there was no row) plus the number of calls of
    the sequence made for that user and guild, whatever calls for other
    users come in between; when the N calls are all for that user and guild
    it is the initial value plus N.  Each call of the sequence adds exactly
    1 to the user's [total_uses] and exactly 1 to the [daily_stats] counter
    of that user for the day of the call, and leaves every other row of both
    tables, the user's [total_invites] and the table [invites] as they were.
    The two increments are one unit: a call either makes both or, when
    sqlite raises, leaves the tables as they were. *)
Theorem record_invite_use_no_lost_update g u calls db :
  (no_sqlite_error (length calls) db →
   credited (tables (record_invite_uses calls db)) g u
     = credited (tables db) g u + Z.of_nat (length (calls_for g u calls))
   ∧ (Forall (λ c : Z * Z * Z, c.1.2 = g ∧ c.2 = u) calls →
      credited (tables (record_invite_uses calls db)) g u
      = credited (tables db) g u + Z.of_nat (length calls))
   ∧ ∀ pre today post, calls = pre ++ (today, g, u) :: post →
       let before := tables (record_invite_uses pre db) in
       let after := tables (record_invite_uses (pre ++ [(today, g, u)]) db) in
       credited after g u = credited before g u + 1
       ∧ daily_count after g u today = daily_count before g u today + 1
       ∧ created after g u = created before g u
       ∧ (∀ k, k ≠ (u, g) → invite_stats after !! k = invite_stats before !! k)
       ∧ (∀ k, k ≠ (u, g, today) → daily_stats after !! k = daily_stats before !! k)
       ∧ invites after = invites before)
  ∧ (∀ today db',
       let after := tables (record_invite_use today g u db') in
       (raises db' = true ∧ after = tables db')
       ∨ (raises db' = false
          ∧ credited after g u = credited (tables db') g u + 1
          ∧ daily_count after g u today = daily_count (tables db') g u today + 1)).
Proof.
  split.
  - intros Hok. split_and!.
    + by apply record_invite_uses_credited.
    + intros Hall. rewrite record_invite_uses_credited by done.
      by rewrite calls_for_all.
    + intros pre today post -> before after. subst before after.
      rewrite record_invite_uses_snoc. simpl fst. simpl snd.
      assert (raises (record_invite_uses pre db) = false) as Hr.
      { apply (no_sqlite_error_raises 0), no_sqlite_error_after.
        eapply no_sqlite_error_le; [|exact Hok]. rewrite length_app. simpl. lia. }
      unfold record_invite_use at 1 2 3 4 5 6, transaction. simpl tables.
      rewrite Hr. split_and!.
      * apply record_invite_use_sql_credited.
      * apply record_invite_use_sql_daily.
      * apply record_invite_use_sql_created.
      * intros k. apply record_invite_use_sql_other_stats.
      * intros k. apply record_invite_use_sql_other_daily.
      * reflexivity.
  - intros today db' after. subst after.
    unfold record_invite_use, transaction. simpl tables.
    destruct (raises db'); [by left | right].
    split_and!; [done | apply record_invite_use_sql_credited
                | apply record_invite_use_sql_daily].
Qed.

Lemma record_invite_use_no_lost_update_witness :
  let calls := [(100, 42, 7); (100, 42, 7); (101, 42, 7)] in
  let db := MkDb (MkStore {[(7, 42) := StatsRow 2 5]} ∅ ∅) [false] in
  no_sqlite_error 3 db
  ∧ Forall (λ c : Z * Z * Z, c.1.2 = 42 ∧ c.2 = 7) calls
  ∧ credited (tables (record_invite_uses calls db)) 42 7
    = credited (tables db) 42 7 + 3.
Proof.
  intros calls db.
  assert (no_sqlite_error 3 db) as Hok by (repeat constructor).
  assert (Forall (λ c : Z * Z * Z, c.1.2 = 42 ∧ c.2 = 7) calls) as Hall.
  { repeat constructor. }
  split_and!; [exact Hok | exact Hall |].
  exact (proj1 (proj2 (proj1 (record_invite_use_no_lost_update 42 7 calls db) Hok))
           Hall).
Defined.

(** *** [add_invite] *)

Lemma add_invite_sql_row code g i m e s :
  invites (add_invite_sql code g i m e s) !! code
  = Some (InviteRow g i 0 m e true).
Proof. unfold add_invite_sql. simpl. apply lookup_insert_eq. Qed.

(** C5, as the claim states it, fails: a stored invite with [uses = 5] has
    [uses = 0] after [add_invite] for the same code. *)
Lemma add_invite_keeps_uses_counterexample :
  ¬ (∀ (s : Store) (code : string) (g i : Z) (m e : option Z) (r : invite_row),
       invites s !! code = Some r →
       stored_uses (add_invite_sql code g i m e s) code = Some (row_uses r)).
Proof.
  intros Hclaim.
  specialize (Hclaim
    (MkStore ∅ {["abc" := InviteRow 1 2 5 None None true]} ∅)
    "abc" 1 2 None None (InviteRow 1 2 5 None None true) eq_refl).
  unfold stored_uses in Hclaim. rewrite add_invite_sql_row in Hclaim.
  discriminate Hclaim.
Qed.

(** C5, amended.  [add_invite] that commits replaces the whole row of the
    code: [guild_id], [inviter_id], [max_uses] and [expires_at] are the
    arguments, the stored [uses] is reset to 0 and [is_active] to TRUE,
    whatever the row held before; the rows of the other codes and the other
    two tables are unchanged. *)
Theorem add_invite_replaces_row code g i m e db :
  raises db = false →
  let s' := tables (add_invite code g i m e db) in
  invites s' !! code = Some (InviteRow g i 0 m e true)
  ∧ stored_uses s' code = Some 0
  ∧ (∀ code', code' ≠ code → invites s' !! code' = invites (tables db) !! code')
  ∧ invite_stats s' = invite_stats (tables db)
  ∧ daily_stats s' = daily_stats (tables db).
Proof.
  intros Hr s'. subst s'. unfold add_invite, transaction. simpl tables.
  rewrite Hr. split_and!.
  - apply add_invite_sql_row.
  - unfold stored_uses. by rewrite add_invite_sql_row.
  - intros code' Hne. unfold add_invite_sql. simpl. by apply lookup_insert_ne.
  - reflexivity.
  - reflexivity.
Qed.

Lemma add_invite_replaces_row_witness :
  let db := MkDb (MkStore ∅ {["abc" := InviteRow 1 2 5 None None false]} ∅) [] in
  raises db = false
  ∧ stored_uses (tables db) "abc" = Some 5
  ∧ stored_uses (tables (add_invite "abc" 1 2 (Some 10) None db)) "abc" = Some 0.
Proof.
  intros db. split; [reflexivity|]. split; [reflexivity|].
  exact (proj1 (proj2
    (add_invite_replaces_row "abc" 1 2 (Some 10) None db eq_refl))).
Defined.

(** *** [remove_invite] *)

Lemma set_inactive_idemp r : set_inactive (set_inactive r) = set_inactive r.
Proof. reflexivity. Qed.

Lemma remove_invite_sql_idemp code s :
  remove_invite_sql code (remove_invite_sql code s) = remove_invite_sql code s.
Proof.
  unfold remove_invite_sql. simpl. f_equal.
  apply map_eq. intros k. destruct (decide (k = code)) as [->|Hne].
  - rewrite !lookup_alter_eq. by destruct (invites s !! code).
  - by rewrite !lookup_alter_ne.
Qed.

(** C9.  For every invite code and every store, running the statement of
    [remove_invite] twice gives the same tables as running it once; and a
    second call of the method right after a first one that met no storage
    error leaves the tables exactly as the first call left them. *)
Theorem remove_invite_idempotent code db :
  remove_invite_sql code (remove_invite_sql code (tables db))
    = remove_invite_sql code (tables db)
  ∧ (raises db = false →
     tables (remove_invite code (remove_invite code db))
     = tables (remove_invite code db)).
Proof.
  split; [apply remove_invite_sql_idemp|].
  intros Hr. unfold remove_invite, transaction. simpl tables. rewrite Hr.
  destruct (raises (MkDb _ _)); [reflexivity | apply remove_invite_sql_idemp].
Qed.

Lemma remove_invite_idempotent_witness :
  let db := MkDb (MkStore ∅ {["abc" := InviteRow 1 2 5 None None true]} ∅) [] in
  raises db = false
  ∧ tables (remove_invite "abc" (remove_invite "abc" db))
    = tables (remove_invite "abc" db).
Proof.
  intros db. split; [reflexivity|].
  exact (proj2 (remove_invite_idempotent "abc" db) eq_refl).
Defined.

(** *** Reads *)

Lemma sql_limit_nil {A} limit : sql_limit limit (@nil A) = [].
Proof. unfold sql_limit. destruct (limit <? 0); [done | apply take_nil]. Qed.

Lemma filter_none {A} (P : A → Prop) `{∀ x, Decision (P x)} (l : list A) :
  (∀ x, x ∈ l → ¬ P x) → filter P l = [].
Proof.
  intros Hno. destruct (filter P l) as [|x l'] eqn:Hf; [done|].
  assert (x ∈ filter P l) as [HP Hin]%list_elem_of_filter.
  { rewrite Hf. by left. }
  by destruct (Hno x Hin).
Qed.

Lemma get_leaderboard_sql_no_rows g limit s :
  (∀ u, invite_stats s !! (u, g) = None) →
  get_leaderboard_sql g limit s = [].
Proof.
  intros Hnone. unfold get_leaderboard_sql.
  assert (filter (λ kv : Z * Z * stats_row, kv.1.2 = g)
                 (map_to_list (invite_stats s)) = []) as ->.
  { apply filter_none.
    intros [[u g'] r] Hin%elem_of_map_to_list. simpl. intros ->.
    rewrite Hnone in Hin. discriminate Hin. }
  simpl. apply sql_limit_nil.
Qed.

(** C7.  [get_user_stats] returns [(0, 0)] for a (guild, user) pair that has
    no row, and [get_leaderboard] returns the empty list for a guild that has
    no rows; when sqlite raises, the two methods return the same [(0, 0)] and
    empty list instead of failing. *)
Theorem queries_neutral_results g u limit db :
  (invite_stats (tables db) !! (u, g) = None →
     (get_user_stats g u db).1 = (0, 0))
  ∧ ((∀ u', invite_stats (tables db) !! (u', g) = None) →
     (get_leaderboard g limit db).1 = [])
  ∧ (raises db = true →
     (get_user_stats g u db).1 = (0, 0) ∧ (get_leaderboard g limit db).1 = []).
Proof.
  unfold get_user_stats, get_leaderboard, query. simpl. split_and!.
  - intros Hnone. destruct (raises db); [done|].
    unfold get_user_stats_sql. by rewrite Hnone.
  - intros Hnone. destruct (raises db); [done|].
    by apply get_leaderboard_sql_no_rows.
  - intros ->. done.
Qed.

Lemma queries_neutral_results_witness :
  let s := MkStore {[(5, 1) := StatsRow 3 4]} ∅ ∅ in
  (get_user_stats 2 5 (MkDb s [])).1 = (0, 0)
  ∧ (get_leaderboard 2 10 (MkDb s [])).1 = []
  ∧ (get_user_stats 1 5 (MkDb s [true])).1 = (0, 0)
  ∧ (get_leaderboard 1 10 (MkDb s [true])).1 = [].
Proof.
  intros s.
  assert (∀ u', invite_stats s !! (u', 2) = None) as Hnone.
  { intros u'. unfold s. simpl. apply lookup_singleton_ne. congruence. }
  split_and!.
  - exact (proj1 (queries_neutral_results 2 5 10 (MkDb s [])) (Hnone 5)).
  - exact (proj1 (proj2 (queries_neutral_results 2 5 10 (MkDb s []))) Hnone).
  - exact (proj1 (proj2 (proj2 (queries_neutral_results 1 5 10 (MkDb s [true]))) eq_refl)).
  - exact (proj2 (proj2 (proj2 (queries_neutral_results 1 5 10 (MkDb s [true]))) eq_refl)).
Defined.

(** *** The rolling leaderboard *)

#[local] Instance sum_Z_perm : Proper ((≡ₚ) ==> (=)) sum_Z.
Proof.
  intros l1 l2 Hp. unfold sum_Z.
  induction Hp as [|x l1 l2 _ IH|x y l|l1 l2 l3 _ IH1 _ IH2]; simpl; lia.
Qed.

Lemma sum_Z_plus {A} (f h : A → Z) (l : list A) :
  sum_Z ((λ x, f x + h x) <$> l) = sum_Z (f <$> l) + sum_Z (h <$> l).
Proof. unfold sum_Z. induction l as [|x l IH]; csimpl; lia. Qed.

Lemma sum_Z_ext {A} (f h : A → Z) (l : list A) :
  (∀ x, x ∈ l → f x = h x) → sum_Z (f <$> l) = sum_Z (h <$> l).
Proof.
  unfold sum_Z. induction l as [|x l IH]; intros Heq; csimpl; [done|].
  rewrite (Heq x) by left. rewrite IH; [done|].
  intros y Hy. apply Heq. by right.
Qed.

Lemma sum_Z_point (d0 v : Z) (l : list Z) :
  NoDup l →
  sum_Z ((λ d, if decide (d = d0) then v else 0) <$> l)
  = if decide (d0 ∈ l) then v else 0.
Proof.
  unfold sum_Z. induction 1 as [|x l Hx Hnd IH]; csimpl; [done|].
  rewrite IH.
  destruct (decide (x = d0)) as [->|Hne].
  - rewrite (decide_False (P := d0 ∈ l)) by done.
    rewrite decide_True by left. lia.
  - destruct (decide (d0 ∈ l)) as [Hin|Hnin].
    + rewrite decide_True by (by right). lia.
    + rewrite decide_False; [lia|]. intros [?|?]%elem_of_cons; congruence.
Qed.

Lemma group_sum_days (m : gmap (Z * Z * Z) Z) g u lo hi :
  (∀ d c, m !! (u, g, d) = Some c → d ≤ hi) →
  group_sum m g u lo
  = sum_Z ((λ d, default 0 (m !! (u, g, d))) <$> seqZ lo (hi - lo + 1)).
Proof.
  unfold group_sum. induction m as [|k v m Hk IH] using map_ind; intros Hhi.
  - rewrite map_to_list_empty. simpl.
    rewrite (sum_Z_ext _ (λ _, 0 + 0)) by (intros d _; by rewrite lookup_empty).
    generalize (seqZ lo (hi - lo + 1)). intros l.
    unfold sum_Z. induction l; csimpl; lia.
  - rewrite (map_to_list_insert m k v Hk).
    rewrite (sum_Z_ext _ (λ d, default 0 (m !! (u, g, d))
                               + (if decide (d = k.2) then
                                    if decide (k.1 = (u, g)) then v else 0
                                  else 0))).
    2:{ intros d _. destruct k as [[u' g'] d']. simpl.
        destruct (decide ((u', g', d') = (u, g, d))) as [[= -> -> ->]|Hne].
        - rewrite lookup_insert_eq, Hk. simpl.
          rewrite !decide_True by done. lia.
        - rewrite lookup_insert_ne by done.
          destruct (decide (d = d')) as [->|]; [|lia].
          rewrite decide_False by congruence. lia. }
    rewrite sum_Z_plus, sum_Z_point by apply NoDup_seqZ.
    rewrite <- IH.
    2:{ intros d c Hd. apply (Hhi d c).
        rewrite lookup_insert_ne; [done|]. intros ->. congruence. }
    destruct k as [[u' g'] d']. simpl.
    destruct (decide (g' = g ∧ lo ≤ d')) as [[-> Hlo]|Hno].
    + rewrite (filter_cons_True _ (u', g, d', v)) by done.
      destruct (decide (u' = u)) as [->|Hne].
      * rewrite filter_cons_True by done. csimpl.
        rewrite decide_True.
        2:{ apply elem_of_seqZ. split; [done|].
            specialize (Hhi d' v). rewrite lookup_insert_eq in Hhi.
            specialize (Hhi eq_refl). lia. }
        rewrite decide_True by done. unfold sum_Z. lia.
      * rewrite filter_cons_False by done.
        rewrite (decide_False (P := (u', g) = (u, g))) by congruence.
        destruct (decide (d' ∈ _)); unfold sum_Z; lia.
    + rewrite (filter_cons_False _ (u', g', d', v)) by done.
      destruct (decide (d' ∈ seqZ lo (hi - lo + 1))) as [Hin|]; [|unfold sum_Z; lia].
      apply elem_of_seqZ in Hin.
      rewrite decide_False; [unfold sum_Z; lia|].
      intros [= -> ->]. apply Hno. split; [done | lia].
Qed.

Lemma group_by_user_elem rows u n :
  (u, n) ∈ group_by_user rows ↔
  (∃ kv, kv ∈ rows ∧ kv.1.1.1 = u)
  ∧ n = sum_Z (snd <$> filter (λ kv : Z * Z * Z * Z, kv.1.1.1 = u) rows).
Proof.
  unfold group_by_user. rewrite list_elem_of_fmap. split.
  - intros (u' & [= <- ->] & Hin). split; [|done].
    apply elem_of_remove_dups, list_elem_of_fmap in Hin as (kv & -> & Hkv).
    by exists kv.
  - intros [(kv & Hkv & <-) ->]. exists (kv.1.1.1). split; [done|].
    apply elem_of_remove_dups, list_elem_of_fmap. by exists kv.
Qed.

Lemma group_by_user_NoDup rows : NoDup (group_by_user rows).*1.
Proof.
  unfold group_by_user.
  pose proof (NoDup_remove_dups ((λ kv : Z * Z * Z * Z, kv.1.1.1) <$> rows)) as Hnd.
  revert Hnd. generalize (remove_dups ((λ kv : Z * Z * Z * Z, kv.1.1.1) <$> rows)).
  intros l Hnd. rewrite <- list_fmap_compose.
  replace (_ <$> l) with l; [done|].
  clear Hnd. induction l as [|x l IH]; csimpl; congruence.
Qed.

Lemma daily_where_elem g lo s kv :
  kv ∈ daily_where g lo s ↔
  daily_stats s !! kv.1 = Some kv.2 ∧ kv.1.1.2 = g ∧ lo ≤ kv.1.2.
Proof.
  unfold daily_where. rewrite list_elem_of_filter.
  destruct kv as [k v]. rewrite elem_of_map_to_list. simpl. tauto.
Qed.

Lemma sql_limit_sublist {A} limit (l : list A) : sql_limit limit l `sublist_of` l.
Proof. unfold sql_limit. destruct (limit <? 0); [done | apply sublist_take]. Qed.

Lemma sql_limit_sorted {A} (R : relation A) limit (l : list A) :
  StronglySorted R l → StronglySorted R (sql_limit limit l).
Proof.
  unfold sql_limit. destruct (limit <? 0); [done|]. intros Hs.
  rewrite <- (take_drop (Z.to_nat limit) l) in Hs.
  by apply StronglySorted_app_1_l in Hs.
Qed.

Lemma sql_limit_fmap_sublist {A B} (f : A → B) limit (l : list A) :
  f <$> sql_limit limit l `sublist_of` f <$> l.
Proof.
  unfold sql_limit. destruct (limit <? 0); [done|].
  rewrite fmap_take. apply sublist_take.
Qed.

Lemma daily_groups_elem today g days s u n :
  (u, n) ∈ merge_sort recent_order
             (group_by_user (daily_where g (today - days) s)) ↔
  (∃ d c, daily_stats s !! (u, g, d) = Some c ∧ today - days ≤ d)
  ∧ n = group_sum (daily_stats s) g u (today - days).
Proof.
  rewrite merge_sort_Permutation, group_by_user_elem. unfold group_sum.
  fold (daily_where g (today - days) s). split.
  - intros [(kv & Hkv & <-) ->]. split; [|done].
    apply daily_where_elem in Hkv as (Hl & <- & Hd).
    exists (kv.1.2), (kv.2). by destruct kv as [[[u' g'] d'] c'].
  - intros [(d & c & Hl & Hd) ->]. split; [|done].
    exists (u, g, d, c). split; [|done]. by apply daily_where_elem.
Qed.

(** C8, as the claim states it, fails: a row dated after the current date is
    added to the sum, which then is not the sum over [today - 7, today]. *)
Lemma daily_leaderboard_interval_counterexample :
  ¬ (∀ (s : Store) (today g limit u n : Z),
       (u, n) ∈ get_daily_leaderboard_sql today g 7 limit s →
       n = uses_between s g u (today - 7) today).
Proof.
  intros Hclaim.
  specialize (Hclaim (MkStore ∅ ∅ {[(1, 1, 11) := 5]}) 10 1 10 1 5).
  assert ((1, 5) ∈ get_daily_leaderboard_sql 10 1 7 10
                     (MkStore ∅ ∅ {[(1, 1, 11) := 5]})) as Hin.
  { vm_compute. left. }
  specialize (Hclaim Hin). vm_compute in Hclaim. discriminate Hclaim.
Qed.

(** C8, amended.  For every store, current date and window length (7 for
    the rolling leaderboard), [get_daily_leaderboard] returns one row per
    user, ordered by the sum descending and cut at [limit]; a user has a row
    exactly when one of its [daily_stats] rows of the guild is dated
    [today - days] or later; the sum of a user adds the [invites_used] of
    all these rows: it is the sum over the days from [today - days] up to
    any day [last] after which the user has no row.  Rows older than
    [today - days] are left out; rows dated after [today] are not. *)
Theorem get_daily_leaderboard_window today g days limit s :
  let rows := get_daily_leaderboard_sql today g days limit s in
  let unlimited := get_daily_leaderboard_sql today g days (-1) s in
  StronglySorted recent_order rows
  ∧ NoDup rows.*1
  ∧ rows = sql_limit limit unlimited
  ∧ (∀ u, u ∈ unlimited.*1 ↔
          ∃ d c, daily_stats s !! (u, g, d) = Some c ∧ today - days ≤ d)
  ∧ (∀ u n, (u, n) ∈ rows →
       ∀ last, (∀ d c, daily_stats s !! (u, g, d) = Some c → d ≤ last) →
               n = uses_between s g u (today - days) last).
Proof.
  intros rows unlimited. subst rows unlimited.
  unfold get_daily_leaderboard_sql.
  change (sql_limit (-1) ?l) with l.
  split_and!.
  - apply sql_limit_sorted, StronglySorted_merge_sort; apply _.
  - eapply sublist_NoDup; [|apply sql_limit_fmap_sublist].
    rewrite merge_sort_Permutation. apply group_by_user_NoDup.
  - reflexivity.
  - intros u. rewrite list_elem_of_fmap. split.
    + intros ([u' n] & -> & Hin). by apply daily_groups_elem in Hin as [? _].
    + intros Hrow. exists (u, group_sum (daily_stats s) g u (today - days)).
      split; [done|]. by apply daily_groups_elem.
  - intros u n Hin last Hlast.
    eapply elem_of_sublist in Hin; [|apply sql_limit_sublist].
    apply daily_groups_elem in Hin as [_ ->].
    by apply group_sum_days.
Qed.

Lemma get_daily_leaderboard_window_witness :
  let s := MkStore ∅ ∅ {[(1, 1, 1) := 7; (1, 1, 5) := 2; (1, 1, 9) := 3;
                         (2, 1, 8) := 4]} in
  get_daily_leaderboard_sql 10 1 7 10 s = [(1, 5); (2, 4)]
  ∧ 5 = uses_between s 1 1 (10 - 7) 10.
Proof.
  intros s.
  assert (get_daily_leaderboard_sql 10 1 7 10 s = [(1, 5); (2, 4)]) as Heq.
  { vm_compute. reflexivity. }
  split; [exact Heq|].
  assert ((1, 5) ∈ get_daily_leaderboard_sql 10 1 7 10 s) as Hin.
  { rewrite Heq. left. }
  assert (map_Forall (λ k _, k.2 ≤ 10) (daily_stats s)) as Hall.
  { apply (bool_decide_unpack _). vm_compute. exact I. }
  apply (proj2 (proj2 (proj2 (proj2
           (get_daily_leaderboard_window 10 1 7 10 s)))) 1 5 Hin 10).
  intros d c Hl. exact (Hall _ _ Hl).
Defined.

End DatabaseFacts.

(** ** Properties of the attribution engine *)

Module TrackerFacts.
Import Database Tracker DatabaseFacts.

(** *** Dictionaries *)

Lemma dict_get_set_eq k v d : dict_get k (dict_set k v d) = Some v.
Proof.
  induction d as [|[k' v'] d IH]; csimpl.
  - by rewrite decide_True.
  - destruct (decide (k = k')) as [->|Hne]; csimpl.
    + by rewrite decide_True.
    + by rewrite decide_False.
Qed.

Lemma dict_get_set_ne k k' v d :
  k ≠ k' → dict_get k' (dict_set k v d) = dict_get k' d.
Proof.
  intros Hne. induction d as [|[k0 v0] d IH]; csimpl.
  - by rewrite decide_False.
  - destruct (decide (k = k0)) as [->|Hne0]; csimpl.
    + by rewrite !decide_False.
    + by rewrite IH.
Qed.

Lemma dict_get_None k d : dict_get k d = None ↔ k ∉ d.*1.
Proof.
  induction d as [|[k' v'] d IH]; csimpl.
  - split; [intros _; apply not_elem_of_nil | done].
  - rewrite not_elem_of_cons. destruct (decide (k = k')) as [->|Hne].
    + split; [done | by intros [? _]].
    + rewrite IH. tauto.
Qed.

Lemma dict_set_mid k v v' pre post :
  k ∉ pre.*1 →
  dict_set k v' (pre ++ (k, v) :: post) = pre ++ (k, v') :: post.
Proof.
  induction pre as [|[k0 v0] pre IH]; csimpl; intros Hk.
  - by rewrite decide_True.
  - apply not_elem_of_cons in Hk as [Hne Hk].
    rewrite decide_False by done. by rewrite IH.
Qed.

Lemma dict_del_mid k v pre post :
  k ∉ pre.*1 →
  dict_del k (pre ++ (k, v) :: post) = pre ++ post.
Proof.
  induction pre as [|[k0 v0] pre IH]; csimpl; intros Hk.
  - by rewrite decide_True.
  - apply not_elem_of_cons in Hk as [Hne Hk].
    rewrite decide_False by done. by rewrite IH.
Qed.

Lemma dict_del_absent k d : k ∉ d.*1 → dict_del k d = d.
Proof.
  induction d as [|[k0 v0] d IH]; csimpl; intros Hk; [done|].
  apply not_elem_of_cons in Hk as [Hne Hk].
  rewrite decide_False by done. by rewrite IH.
Qed.

Lemma dict_set_keys k v d :
  (dict_set k v d).*1 = if decide (k ∈ d.*1) then d.*1 else d.*1 ++ [k].
Proof.
  induction d as [|[k0 v0] d IH]; csimpl; [done|].
  destruct (decide (k = k0)) as [->|Hne]; csimpl.
  - rewrite decide_True by left. done.
  - rewrite IH. destruct (decide (k ∈ d.*1)) as [Hin|Hnin].
    + rewrite decide_True by (by right). done.
    + rewrite decide_False; [done|]. by intros [?|?]%elem_of_cons.
Qed.

Lemma dict_set_NoDup k v d : NoDup d.*1 → NoDup (dict_set k v d).*1.
Proof.
  intros Hnd. rewrite dict_set_keys. destruct (decide (k ∈ d.*1)); [done|].
  apply NoDup_app. split_and!; [done| |apply NoDup_singleton].
  intros x Hx ->%list_elem_of_singleton. done.
Qed.

Lemma dict_del_NoDup k d : NoDup d.*1 → NoDup (dict_del k d).*1.
Proof.
  induction d as [|[k0 v0] d IH]; csimpl; [done|].
  intros [Hk Hnd]%NoDup_cons. destruct (decide (k = k0)); csimpl; [done|].
  apply NoDup_cons. split; [|by apply IH].
  intros Hin. apply Hk. clear -Hin.
  induction d as [|[k1 v1] d IH]; csimpl in *; [done|].
  destruct (decide (k = k1)); [by right|].
  apply elem_of_cons in Hin as [->|Hin]; [left | right; by apply IH].
Qed.

(** *** What the methods of the database leave alone *)

Lemma transaction_invite_stats body d :
  (∀ s, invite_stats (body s) = invite_stats s) →
  invite_stats (tables (transaction body d)) = invite_stats (tables d).
Proof. intros Hb. unfold transaction. simpl. by destruct (raises d). Qed.

Lemma transaction_daily_stats body d :
  (∀ s, daily_stats (body s) = daily_stats s) →
  daily_stats (tables (transaction body d)) = daily_stats (tables d).
Proof. intros Hb. unfold transaction. simpl. by destruct (raises d). Qed.

Lemma transaction_invites body d :
  (∀ s, invites (body s) = invites s) →
  invites (tables (transaction body d)) = invites (tables d).
Proof. intros Hb. unfold transaction. simpl. by destruct (raises d). Qed.

Lemma transaction_commits body d :
  raises d = false → tables (transaction body d) = body (tables d).
Proof. intros Hr. unfold transaction. simpl. by rewrite Hr. Qed.

(** *** Projections of the tracker *)

Lemma db_with_db f t : db (with_db f t) = f (db t).
Proof. reflexivity. Qed.

Lemma db_with_cache f t : db (with_cache f t) = db t.
Proof. reflexivity. Qed.

Lemma invite_cache_with_db f t : invite_cache (with_db f t) = invite_cache t.
Proof. reflexivity. Qed.

Lemma invite_cache_with_cache f t :
  invite_cache (with_cache f t) = f (invite_cache t).
Proof. reflexivity. Qed.

Create Rewrite HintDb tracker.
#[local] Hint Rewrite db_with_db db_with_cache invite_cache_with_db
  invite_cache_with_cache : tracker.

Ltac tracker_simpl :=
  unfold cache_setitem, cache_delitem; autorewrite with tracker.

Lemma alter_present {A} (f : A → A) (m : gmap Z A) i x :
  m !! i = Some x → alter f i m = <[i := f x]> m.
Proof.
  intros Hi. apply map_eq. intros j. destruct (decide (i = j)) as [->|Hne].
  - by rewrite lookup_alter_eq, lookup_insert_eq, Hi.
  - by rewrite lookup_alter_ne, lookup_insert_ne.
Qed.

(** *** [cache_invites] writes to the table [invites] only *)

Lemma cache_one_counters guild t invite :
  invite_stats (tables (db (cache_one guild t invite))) = invite_stats (tables (db t))
  ∧ daily_stats (tables (db (cache_one guild t invite))) = daily_stats (tables (db t)).
Proof.
  unfold cache_one. tracker_simpl. unfold update_invite_usage, add_invite.
  by rewrite !transaction_invite_stats, !transaction_daily_stats.
Qed.

Lemma cache_loop_counters guild invites t :
  invite_stats (tables (db (foldl (cache_one guild) t invites)))
    = invite_stats (tables (db t))
  ∧ daily_stats (tables (db (foldl (cache_one guild) t invites)))
    = daily_stats (tables (db t)).
Proof.
  revert t. induction invites as [|x l IH]; intros t; [done|]. simpl.
  destruct (IH (cache_one guild t x)) as [-> ->]. apply cache_one_counters.
Qed.

Lemma cache_invites_counters guild fetched t :
  invite_stats (tables (db (cache_invites guild fetched t)))
    = invite_stats (tables (db t))
  ∧ daily_stats (tables (db (cache_invites guild fetched t)))
    = daily_stats (tables (db t)).
Proof.
  unfold cache_invites. destruct (manage_guild guild); simpl; [|done].
  destruct fetched as [invites|]; [|done].
  apply (cache_loop_counters guild invites (with_cache _ t)).
Qed.

Lemma cache_invites_no_permission guild fetched t :
  manage_guild guild = false → cache_invites guild fetched t = t.
Proof. intros Hp. unfold cache_invites. by rewrite Hp. Qed.

(** The cache that [cache_invites] builds. *)
Lemma cache_loop_cache guild invites t d :
  invite_cache t !! guild_id guild = Some d →
  invite_cache (foldl (cache_one guild) t invites)
  = <[guild_id guild :=
        foldl (λ d' invite, dict_set (code invite) invite d') d invites]>
      (invite_cache t).
Proof.
  revert t d. induction invites as [|x l IH]; intros t d Hd.
  - simpl. by rewrite insert_id.
  - simpl foldl.
    rewrite (IH (cache_one guild t x) (dict_set (code x) x d)).
    + unfold cache_one. tracker_simpl.
      rewrite (alter_present _ _ _ _ Hd). by rewrite insert_insert_eq.
    + unfold cache_one. tracker_simpl. by rewrite lookup_alter_eq, Hd.
Qed.

Lemma cache_invites_cache guild invites t :
  manage_guild guild = true →
  invite_cache (cache_invites guild (Some invites) t)
  = <[guild_id guild := dict_of_invites invites]> (invite_cache t).
Proof.
  intros Hp. unfold cache_invites. rewrite Hp. simpl.
  rewrite (cache_loop_cache guild invites _ []).
  - tracker_simpl. by rewrite insert_insert_eq.
  - tracker_simpl. apply lookup_insert_eq.
Qed.

(** The rows that [cache_invites] writes when no storage error occurs. *)
Lemma cache_one_rows guild t x k :
  no_sqlite_error 2 (db t) →
  invites (tables (db (cache_one guild t x))) !! k
  = if decide (code x = k) then Some (cached_row guild x)
    else invites (tables (db t)) !! k.
Proof.
  intros Hok. unfold cache_one. tracker_simpl.
  unfold update_invite_usage, add_invite.
  rewrite transaction_commits.
  2:{ apply (no_sqlite_error_raises 0). by apply no_sqlite_error_step. }
  rewrite transaction_commits by (by apply (no_sqlite_error_raises 1)).
  unfold update_invite_usage_sql, add_invite_sql. simpl.
  destruct (decide (code x = k)) as [<-|Hne].
  - by rewrite lookup_alter_eq, lookup_insert_eq.
  - by rewrite lookup_alter_ne, lookup_insert_ne.
Qed.

Lemma cache_one_errors guild t x n :
  no_sqlite_error (S (S n)) (db t) → no_sqlite_error n (db (cache_one guild t x)).
Proof.
  intros Hok. unfold cache_one. tracker_simpl.
  by apply no_sqlite_error_step, no_sqlite_error_step.
Qed.

Lemma cache_loop_rows guild l t k :
  no_sqlite_error (2 * length l) (db t) →
  invites (tables (db (foldl (cache_one guild) t l))) !! k
  = match last (filter (λ invite, code invite = k) l) with
    | Some invite => Some (cached_row guild invite)
    | None => invites (tables (db t)) !! k
    end.
Proof.
  revert t. induction l as [|x l IH]; intros t Hok; [done|].
  simpl foldl. simpl length in Hok.
  replace (2 * S (length l))%nat with (S (S (2 * length l))) in Hok by lia.
  rewrite IH by (by apply cache_one_errors).
  rewrite filter_cons, cache_one_rows.
  2:{ eapply no_sqlite_error_le; [|exact Hok]. lia. }
  destruct (decide (code x = k)) as [Heq|Hne].
  - rewrite last_cons. by destruct (last (filter _ l)).
  - done.
Qed.

Lemma cache_invites_rows guild l t k :
  manage_guild guild = true →
  no_sqlite_error (2 * length l) (db t) →
  invites (tables (db (cache_invites guild (Some l) t))) !! k
  = match last (filter (λ invite, code invite = k) l) with
    | Some invite => Some (cached_row guild invite)
    | None => invites (tables (db t)) !! k
    end.
Proof.
  intros Hp Hok. unfold cache_invites. rewrite Hp. simpl.
  by rewrite cache_loop_rows.
Qed.

(** *** The loop of [on_member_join] *)

Lemma compare_with_cached_skip guild today current pre rest t :
  Forall (unchanged_entry current) pre →
  compare_with_cached guild today current (pre ++ rest) t
  = compare_with_cached guild today current rest t.
Proof.
  induction 1 as [|[k old] pre Hkv _ IH]; simpl; [done|].
  unfold unchanged_entry in Hkv. simpl in Hkv.
  destruct (dict_get k current) as [cur|].
  - by rewrite decide_False.
  - by rewrite decide_False.
Qed.

Lemma compare_with_cached_unchanged guild today current items t :
  Forall (unchanged_entry current) items →
  compare_with_cached guild today current items t = t.
Proof.
  intros Hall. rewrite <- (app_nil_r items).
  by rewrite compare_with_cached_skip.
Qed.

Lemma credit_inviter_cache guild today old_invite t :
  invite_cache (credit_inviter guild today old_invite t) = invite_cache t.
Proof. unfold credit_inviter. by case_decide. Qed.

Lemma credit_inviter_db guild today old_invite t :
  db (credit_inviter guild today old_invite t)
  = if decide (inviter_id_or_0 old_invite ≠ 0)
    then record_invite_use today (guild_id guild) (inviter_id_or_0 old_invite) (db t)
    else db t.
Proof. unfold credit_inviter. by case_decide. Qed.

Lemma credit_inviter_invites guild today old_invite t :
  invites (tables (db (credit_inviter guild today old_invite t)))
  = invites (tables (db t)).
Proof.
  rewrite credit_inviter_db. case_decide; [|done].
  by apply transaction_invites.
Qed.

Lemma credit_inviter_errors guild today old_invite t n :
  no_sqlite_error (S n) (db t) →
  no_sqlite_error n (db (credit_inviter guild today old_invite t)).
Proof.
  intros Hok. rewrite credit_inviter_db. case_decide.
  - by apply no_sqlite_error_step.
  - eapply no_sqlite_error_le; [|exact Hok]. lia.
Qed.

Lemma credit_inviter_credits guild today old_invite t u :
  inviter old_invite = Some u → u ≠ 0 → raises (db t) = false →
  tables (db (credit_inviter guild today old_invite t))
  = record_invite_use_sql today (guild_id guild) u (tables (db t)).
Proof.
  intros Hu Hne Hr. rewrite credit_inviter_db.
  unfold inviter_id_or_0. rewrite Hu. rewrite decide_True by done.
  by apply transaction_commits.
Qed.

Lemma credit_inviter_others guild today old_invite t g' u' :
  (g', u') ≠ (guild_id guild, inviter_id_or_0 old_invite) →
  credited (tables (db (credit_inviter guild today old_invite t))) g' u'
  = credited (tables (db t)) g' u'.
Proof.
  intros Hne. rewrite credit_inviter_db. case_decide; [|done].
  unfold record_invite_use, transaction. simpl. destruct (raises (db t)); [done|].
  unfold credited, get_user_stats_sql.
  rewrite record_invite_use_sql_other_stats; [done|]. congruence.
Qed.

Lemma credit_inviter_none guild today old_invite t :
  inviter_id_or_0 old_invite = 0 → credit_inviter guild today old_invite t = t.
Proof. intros H0. unfold credit_inviter. rewrite H0. by rewrite decide_False by lia. Qed.

Lemma find_used_invite_first_match guild today current_invites t pre code
    old_invite post :
  invite_cache t !! guild_id guild = Some (pre ++ (code, old_invite) :: post) →
  Forall (unchanged_entry (dict_of_invites current_invites)) pre →
  find_used_invite guild today current_invites t
  = compare_with_cached guild today (dict_of_invites current_invites)
      ((code, old_invite) :: post) t.
Proof.
  intros Hc Hpre. unfold find_used_invite. rewrite Hc.
  by rewrite compare_with_cached_skip.
Qed.

(** C2.  Take a member join on a cached guild (the bot may read the
    invites and the fetch succeeds).  Let [(code, old_invite)] be the first
    entry of the cache, in its iteration order, to which a branch of the loop
    applies (no branch applies to the entries [pre] before it), and let its
    code be in the fresh dictionary with strictly more uses.  Then the loop
    makes exactly these steps and stops: it calls [record_invite_use] for the
    inviter of the cached invite when that inviter is not null (id different
    from 0) and for nobody otherwise, stores the fresh invite in the cache at
    that code, and calls [update_invite_usage] with the new count; the
    entries [post] after it are not looked at.  When no storage error
    occurs, the inviter's [total_uses] and the [daily_stats] counter of the
    day go up by exactly 1 and the stored [uses] of the code is the new
    count; nobody else is credited.  The final [cache_invites] then runs on
    that state: it leaves [invite_stats] and [daily_stats] as the loop left
    them and, when its fetch succeeds, makes the cache of the guild the
    dictionary of the invites it fetched. *)
Theorem on_member_join_increased_uses guild today current_invites refetched t
    pre code old_invite post current_invite :
  manage_guild guild = true →
  invite_cache t !! guild_id guild = Some (pre ++ (code, old_invite) :: post) →
  NoDup (pre ++ (code, old_invite) :: post).*1 →
  Forall (unchanged_entry (dict_of_invites current_invites)) pre →
  dict_get code (dict_of_invites current_invites) = Some current_invite →
  uses old_invite < uses current_invite →
  let g := guild_id guild in
  let found := find_used_invite guild today current_invites t in
  on_member_join guild today (Some current_invites) refetched t
    = cache_invites guild refetched found
  ∧ found = with_db (update_invite_usage code (uses current_invite))
              (cache_setitem g code current_invite
                 (credit_inviter guild today old_invite t))
  ∧ invite_cache found
    = <[g := pre ++ (code, current_invite) :: post]> (invite_cache t)
  ∧ (∀ u, inviter old_invite = Some u → u ≠ 0 →
       db found = update_invite_usage code (uses current_invite)
                    (record_invite_use today g u (db t)))
  ∧ (inviter_id_or_0 old_invite = 0 →
       db found = update_invite_usage code (uses current_invite) (db t))
  ∧ (∀ g' u', (g', u') ≠ (g, inviter_id_or_0 old_invite) →
       credited (tables (db found)) g' u' = credited (tables (db t)) g' u')
  ∧ (no_sqlite_error 2 (db t) →
       (∀ u, inviter old_invite = Some u → u ≠ 0 →
          credited (tables (db found)) g u = credited (tables (db t)) g u + 1
          ∧ daily_count (tables (db found)) g u today
            = daily_count (tables (db t)) g u today + 1)
       ∧ (is_Some (invites (tables (db t)) !! code) →
          stored_uses (tables (db found)) code = Some (uses current_invite)))
  ∧ (let t' := on_member_join guild today (Some current_invites) refetched t in
     invite_stats (tables (db t')) = invite_stats (tables (db found))
     ∧ daily_stats (tables (db t')) = daily_stats (tables (db found))
     ∧ ∀ fetched, refetched = Some fetched →
         invite_cache t' = <[g := dict_of_invites fetched]> (invite_cache t)).
Proof.
  intros Hperm Hc Hnd Hpre Hget Hlt g found.
  assert (found = with_db (update_invite_usage code (uses current_invite))
              (cache_setitem g code current_invite
                 (credit_inviter guild today old_invite t))) as Hfound.
  { subst found. rewrite (find_used_invite_first_match _ _ _ _ _ _ _ _ Hc Hpre).
    simpl. rewrite Hget. by rewrite decide_True. }
  assert (code ∉ pre.*1) as Hfresh.
  { rewrite fmap_app in Hnd. apply NoDup_app in Hnd as (_ & Hno & _).
    intros Hin. apply (Hno code Hin). csimpl. left. }
  split_and!.
  - unfold on_member_join. by rewrite Hperm.
  - exact Hfound.
  - rewrite Hfound. tracker_simpl. rewrite credit_inviter_cache.
    rewrite (alter_present _ _ _ _ Hc). by rewrite dict_set_mid.
  - intros u Hu Hne. rewrite Hfound. tracker_simpl. rewrite credit_inviter_db.
    unfold inviter_id_or_0. rewrite Hu. by rewrite decide_True.
  - intros H0. rewrite Hfound. tracker_simpl. by rewrite credit_inviter_none.
  - intros g' u' Hne. rewrite Hfound. tracker_simpl.
    unfold credited, get_user_stats_sql, update_invite_usage.
    rewrite transaction_invite_stats by done.
    by apply credit_inviter_others.
  - intros Hok. split.
    + intros u Hu Hne. rewrite Hfound. tracker_simpl.
      unfold credited, get_user_stats_sql, daily_count, update_invite_usage.
      rewrite transaction_invite_stats, transaction_daily_stats by done.
      rewrite (credit_inviter_credits _ _ _ _ u Hu Hne)
        by (by apply (no_sqlite_error_raises 1)).
      split.
      * apply record_invite_use_sql_credited.
      * apply record_invite_use_sql_daily.
    + intros [r Hr]. rewrite Hfound. tracker_simpl.
      unfold update_invite_usage. rewrite transaction_commits.
      2:{ apply (no_sqlite_error_raises 0). by apply credit_inviter_errors. }
      unfold stored_uses, update_invite_usage_sql. simpl.
      rewrite lookup_alter_eq, credit_inviter_invites, Hr. done.
  - intros t'.
    assert (t' = cache_invites guild refetched found) as ->.
    { subst t'. unfold on_member_join. by rewrite Hperm. }
    split_and!; [apply cache_invites_counters.. |].
    intros fetched ->. rewrite cache_invites_cache by done.
    rewrite Hfound. tracker_simpl. rewrite credit_inviter_cache.
    rewrite (alter_present _ _ _ _ Hc). by rewrite insert_insert_eq.
Qed.

Lemma on_member_join_increased_uses_witness :
  let guild := MkGuild 1 true in
  let old_invite := MkInvite "X" (Some 7) 2 None None in
  let current_invite := MkInvite "X" (Some 7) 3 None None in
  let t := MkTracker {[1 := [("X", old_invite)]]}
             (MkDb (MkStore ∅ {["X" := InviteRow 1 7 2 None None true]} ∅) []) in
  let found := find_used_invite guild 100 [current_invite] t in
  credited (tables (db found)) 1 7 = credited (tables (db t)) 1 7 + 1
  ∧ daily_count (tables (db found)) 1 7 100
    = daily_count (tables (db t)) 1 7 100 + 1
  ∧ stored_uses (tables (db found)) "X" = Some 3
  ∧ invite_cache found = <[1 := [("X", current_invite)]]> (invite_cache t).
Proof.
  intros guild old_invite current_invite t found.
  assert (NoDup ([] ++ [("X", old_invite)]).*1) as Hnd.
  { apply (bool_decide_unpack _). vm_compute. exact I. }
  assert (uses old_invite < uses current_invite) as Hlt by (simpl; lia).
  assert (no_sqlite_error 2 (db t)) as Hok by constructor.
  destruct (on_member_join_increased_uses guild 100 [current_invite]
              (Some [current_invite]) t [] "X" old_invite [] current_invite
              eq_refl eq_refl Hnd (Forall_nil_2 _) eq_refl Hlt)
    as (_ & _ & Hcache & _ & _ & _ & Heffect & _).
  destruct (Heffect Hok) as [Hcredit Hstored].
  destruct (Hcredit 7 eq_refl) as [Htotal Hdaily]; [lia|].
  split_and!; [exact Htotal | exact Hdaily | | exact Hcache].
  apply Hstored. by eexists.
Defined.

Lemma dict_of_invites_keys_acc (l : list Invite) (acc : invite_dict) k :
  k ∈ (foldl (λ d invite, dict_set (code invite) invite d) acc l).*1
  ↔ k ∈ acc.*1 ∨ k ∈ code <$> l.
Proof.
  revert acc. induction l as [|x l IH]; intros acc; csimpl.
  - rewrite elem_of_nil. tauto.
  - rewrite IH, dict_set_keys, elem_of_cons.
    destruct (decide (code x ∈ acc.*1)) as [Hin|Hnin].
    + split; [tauto|]. intros [?|[->|?]]; tauto.
    + rewrite elem_of_app, list_elem_of_singleton. tauto.
Qed.

Lemma dict_get_dict_of_invites_None l k :
  dict_get k (dict_of_invites l) = None ↔ k ∉ code <$> l.
Proof.
  rewrite dict_get_None. unfold dict_of_invites.
  rewrite dict_of_invites_keys_acc. csimpl. rewrite elem_of_nil. tauto.
Qed.

(** The dictionary comprehension keeps, for a code, the last fetched invite
    that has this code. *)
Lemma dict_get_foldl_dict_set (l : list Invite) (acc : invite_dict) k :
  dict_get k (foldl (λ d invite, dict_set (code invite) invite d) acc l)
  = match last (filter (λ invite, code invite = k) l) with
    | Some invite => Some invite
    | None => dict_get k acc
    end.
Proof.
  revert acc. induction l as [|x l IH]; intros acc; [done|].
  simpl foldl. rewrite IH. rewrite filter_cons.
  destruct (decide (code x = k)) as [<-|Hne].
  - rewrite last_cons, dict_get_set_eq.
    by destruct (last (filter _ l)).
  - by rewrite dict_get_set_ne.
Qed.

Lemma dict_get_dict_of_invites l k :
  dict_get k (dict_of_invites l) = last (filter (λ invite, code invite = k) l).
Proof.
  unfold dict_of_invites. rewrite dict_get_foldl_dict_set.
  by destruct (last _).
Qed.

(** C3.  Take a member join on a cached guild (the bot may read the
    invites and the fetch succeeds).  Let [(code, old_invite)] be the first
    entry of the cache, in its iteration order, to which a branch of the loop
    applies, let its code be absent from the freshly fetched list and its
    cached [max_uses] be 1.  Then the loop calls [record_invite_use] for the
    inviter of the cached invite when there is one (id different from 0) and
    for nobody otherwise, removes the code from the cache and stops: the
    entries after it are not looked at and no other call is made.  When no
    storage error occurs the inviter's [total_uses] and the [daily_stats]
    counter of the day go up by exactly 1.  The final [cache_invites] leaves
    [invite_stats] and [daily_stats] as the loop left them and, when its
    fetch succeeds, makes the cache of the guild the dictionary of the
    invites it fetched. *)
Theorem on_member_join_single_use_gone guild today current_invites refetched t
    pre code old_invite post :
  manage_guild guild = true →
  invite_cache t !! guild_id guild = Some (pre ++ (code, old_invite) :: post) →
  NoDup (pre ++ (code, old_invite) :: post).*1 →
  Forall (unchanged_entry (dict_of_invites current_invites)) pre →
  code ∉ Tracker.code <$> current_invites →
  max_uses old_invite = Some 1 →
  let g := guild_id guild in
  let found := find_used_invite guild today current_invites t in
  on_member_join guild today (Some current_invites) refetched t
    = cache_invites guild refetched found
  ∧ found = cache_delitem g code (credit_inviter guild today old_invite t)
  ∧ invite_cache found = <[g := pre ++ post]> (invite_cache t)
  ∧ dict_get code (pre ++ post) = None
  ∧ (∀ u, inviter old_invite = Some u → u ≠ 0 →
       db found = record_invite_use today g u (db t))
  ∧ (inviter_id_or_0 old_invite = 0 → db found = db t)
  ∧ (∀ g' u', (g', u') ≠ (g, inviter_id_or_0 old_invite) →
       credited (tables (db found)) g' u' = credited (tables (db t)) g' u')
  ∧ (raises (db t) = false →
       ∀ u, inviter old_invite = Some u → u ≠ 0 →
         credited (tables (db found)) g u = credited (tables (db t)) g u + 1
         ∧ daily_count (tables (db found)) g u today
           = daily_count (tables (db t)) g u today + 1)
  ∧ (let t' := on_member_join guild today (Some current_invites) refetched t in
     invite_stats (tables (db t')) = invite_stats (tables (db found))
     ∧ daily_stats (tables (db t')) = daily_stats (tables (db found))
     ∧ ∀ fetched, refetched = Some fetched →
         invite_cache t' = <[g := dict_of_invites fetched]> (invite_cache t)).
Proof.
  intros Hperm Hc Hnd Hpre Hgone Hone g found.
  assert (found = cache_delitem g code (credit_inviter guild today old_invite t))
    as Hfound.
  { subst found. rewrite (find_used_invite_first_match _ _ _ _ _ _ _ _ Hc Hpre).
    simpl. apply dict_get_dict_of_invites_None in Hgone. rewrite Hgone.
    by rewrite decide_True. }
  rewrite fmap_app in Hnd. csimpl in Hnd.
  apply NoDup_app in Hnd as (_ & Hno & [Hpost _]%NoDup_cons).
  assert (code ∉ pre.*1) as Hfresh.
  { intros Hin. apply (Hno code Hin). left. }
  split_and!.
  - unfold on_member_join. by rewrite Hperm.
  - exact Hfound.
  - rewrite Hfound. tracker_simpl. rewrite credit_inviter_cache.
    rewrite (alter_present _ _ _ _ Hc). by rewrite dict_del_mid.
  - apply dict_get_None. rewrite fmap_app, elem_of_app. tauto.
  - intros u Hu Hne. rewrite Hfound. tracker_simpl. rewrite credit_inviter_db.
    unfold inviter_id_or_0. rewrite Hu. by rewrite decide_True.
  - intros H0. rewrite Hfound. tracker_simpl. by rewrite credit_inviter_none.
  - intros g' u' Hne. rewrite Hfound. tracker_simpl.
    by apply credit_inviter_others.
  - intros Hr u Hu Hne. rewrite Hfound. tracker_simpl.
    rewrite (credit_inviter_credits _ _ _ _ u Hu Hne Hr). split.
    + apply record_invite_use_sql_credited.
    + apply record_invite_use_sql_daily.
  - intros t'.
    assert (t' = cache_invites guild refetched found) as ->.
    { subst t'. unfold on_member_join. by rewrite Hperm. }
    split_and!; [apply cache_invites_counters.. |].
    intros fetched ->. rewrite cache_invites_cache by done.
    rewrite Hfound. tracker_simpl. rewrite credit_inviter_cache.
    rewrite (alter_present _ _ _ _ Hc). by rewrite insert_insert_eq.
Qed.

Lemma on_member_join_single_use_gone_witness :
  let guild := MkGuild 1 true in
  let old_invite := MkInvite "Y" (Some 8) 0 (Some 1) None in
  let t := MkTracker {[1 := [("Y", old_invite)]]}
             (MkDb (MkStore ∅ {["Y" := InviteRow 1 8 0 (Some 1) None true]} ∅) []) in
  let found := find_used_invite guild 100 [] t in
  credited (tables (db found)) 1 8 = credited (tables (db t)) 1 8 + 1
  ∧ daily_count (tables (db found)) 1 8 100
    = daily_count (tables (db t)) 1 8 100 + 1
  ∧ invite_cache found = <[1 := []]> (invite_cache t).
Proof.
  intros guild old_invite t found.
  assert (NoDup ([] ++ [("Y", old_invite)]).*1) as Hnd.
  { apply (bool_decide_unpack _). vm_compute. exact I. }
  assert ("Y" ∉ code <$> []) as Hgone by apply not_elem_of_nil.
  destruct (on_member_join_single_use_gone guild 100 [] (Some []) t [] "Y"
              old_invite [] eq_refl eq_refl Hnd (Forall_nil_2 _) Hgone eq_refl)
    as (_ & _ & Hcache & _ & _ & _ & _ & Heffect & _).
  destruct (Heffect eq_refl 8 eq_refl) as [Htotal Hdaily]; [lia|].
  split_and!; [exact Htotal | exact Hdaily | exact Hcache].
Defined.

Lemma on_member_join_resync guild today current_invites refetched t :
  find_used_invite guild today current_invites t = t →
  on_member_join guild today (Some current_invites) refetched t
  = cache_invites guild refetched t.
Proof.
  intros Hfound. unfold on_member_join. rewrite Hfound.
  destruct (manage_guild guild) eqn:Hp; simpl; [done|].
  by rewrite cache_invites_no_permission.
Qed.

(** C6.  On a cached guild, when no cached invite is in the fresh list with
    strictly more uses and no cached invite with [max_uses = 1] is missing
    from the fresh list, the loop of [on_member_join] changes nothing and
    calls [record_invite_use] for nobody: the join only runs the final
    [cache_invites], and the tables [invite_stats] and [daily_stats] are
    exactly what they were. *)
Theorem on_member_join_no_match guild today current_invites refetched t cached :
  invite_cache t !! guild_id guild = Some cached →
  (∀ code old_invite current_invite,
     (code, old_invite) ∈ cached →
     dict_get code (dict_of_invites current_invites) = Some current_invite →
     ¬ uses old_invite < uses current_invite) →
  (∀ code old_invite,
     (code, old_invite) ∈ cached →
     code ∉ Tracker.code <$> current_invites →
     max_uses old_invite ≠ Some 1) →
  let t' := on_member_join guild today (Some current_invites) refetched t in
  find_used_invite guild today current_invites t = t
  ∧ t' = cache_invites guild refetched t
  ∧ invite_stats (tables (db t')) = invite_stats (tables (db t))
  ∧ daily_stats (tables (db t')) = daily_stats (tables (db t)).
Proof.
  intros Hc Hsame Hkept t'.
  assert (find_used_invite guild today current_invites t = t) as Hfound.
  { unfold find_used_invite. rewrite Hc.
    apply compare_with_cached_unchanged, Forall_forall.
    intros [code old_invite] Hin. unfold unchanged_entry. simpl.
    destruct (dict_get code (dict_of_invites current_invites)) as [cur|] eqn:Hget.
    - by apply (Hsame code old_invite cur).
    - apply (Hkept code old_invite Hin).
      by apply dict_get_dict_of_invites_None. }
  assert (t' = cache_invites guild refetched t) as Ht'.
  { by apply on_member_join_resync. }
  split_and!; [done | done | |].
  - rewrite Ht'. apply cache_invites_counters.
  - rewrite Ht'. apply cache_invites_counters.
Qed.

Lemma unchanged_entry_elim current k v :
  unchanged_entry current (k, v) →
  (∀ cur, dict_get k current = Some cur → ¬ uses v < uses cur)
  ∧ (dict_get k current = None → max_uses v ≠ Some 1).
Proof.
  unfold unchanged_entry. cbn [fst snd].
  destruct (dict_get k current) as [cur|]; intros Hu.
  - split; [by intros ? [= <-] | done].
  - split; [done | by intros _].
Qed.

Lemma on_member_join_no_match_witness :
  let guild := MkGuild 1 true in
  let x := MkInvite "X" (Some 7) 2 None None in
  let y := MkInvite "Y" (Some 8) 0 (Some 5) None in
  let t := MkTracker {[1 := [("X", x); ("Y", y)]]}
             (MkDb (MkStore {[(7, 1) := StatsRow 1 4]} ∅ {[(7, 1, 99) := 4]}) []) in
  let t' := on_member_join guild 100 (Some [x]) (Some [x]) t in
  invite_stats (tables (db t')) = invite_stats (tables (db t))
  ∧ daily_stats (tables (db t')) = daily_stats (tables (db t)).
Proof.
  intros guild x y t t'.
  assert (Forall (unchanged_entry (dict_of_invites [x])) [("X", x); ("Y", y)])
    as Hall.
  { apply (bool_decide_unpack _). vm_compute. exact I. }
  destruct (on_member_join_no_match guild 100 [x] (Some [x]) t
              [("X", x); ("Y", y)] eq_refl) as (_ & _ & Hstats & Hdaily).
  - intros code old_invite current_invite Hin Hget.
    pose proof (proj1 (Forall_forall _ _) Hall _ Hin) as Hu.
    by apply (proj1 (unchanged_entry_elim _ _ _ Hu)).
  - intros code old_invite Hin Hgone.
    pose proof (proj1 (Forall_forall _ _) Hall _ Hin) as Hu.
    apply (proj2 (unchanged_entry_elim _ _ _ Hu)).
    by apply dict_get_dict_of_invites_None.
  - split; [exact Hstats | exact Hdaily].
Defined.

(** C10.  On a guild that has no entry in [invite_cache], [on_member_join]
    does not enter the loop and calls [record_invite_use] for nobody: when
    the first fetch succeeds the join is exactly the final [cache_invites],
    otherwise it does nothing; the tables [invite_stats] and [daily_stats]
    are exactly what they were.  When the bot may fetch and both fetches
    succeed, the cache of the guild becomes the dictionary of the invites
    fetched last and, without storage error, the row of [invites] of each
    fetched code holds the fetched metadata and uses; the rows of the other
    codes are unchanged. *)
Theorem on_member_join_uncached guild today current refetched t :
  invite_cache t !! guild_id guild = None →
  let t' := on_member_join guild today current refetched t in
  t' = match current with
       | Some _ => cache_invites guild refetched t
       | None => t
       end
  ∧ invite_stats (tables (db t')) = invite_stats (tables (db t))
  ∧ daily_stats (tables (db t')) = daily_stats (tables (db t))
  ∧ (∀ fetched, manage_guild guild = true → is_Some current →
       refetched = Some fetched →
       invite_cache t'
       = <[guild_id guild := dict_of_invites fetched]> (invite_cache t)
       ∧ (no_sqlite_error (2 * length fetched) (db t) →
          ∀ k, invites (tables (db t')) !! k
               = match last (filter (λ invite, code invite = k) fetched) with
                 | Some invite => Some (cached_row guild invite)
                 | None => invites (tables (db t)) !! k
                 end)).
Proof.
  intros Hc t'.
  assert (t' = match current with
               | Some _ => cache_invites guild refetched t
               | None => t
               end) as Ht'.
  { subst t'. destruct current as [current_invites|].
    - apply on_member_join_resync. unfold find_used_invite. by rewrite Hc.
    - unfold on_member_join. by destruct (manage_guild guild). }
  split; [exact Ht'|]. rewrite Ht'. split_and!.
  - destruct current; [apply cache_invites_counters | done].
  - destruct current; [apply cache_invites_counters | done].
  - intros fetched Hp [l ->] ->. split; [by apply cache_invites_cache|].
    intros Hok k. by apply cache_invites_rows.
Qed.

Lemma on_member_join_uncached_witness :
  let guild := MkGuild 1 true in
  let x := MkInvite "X" (Some 7) 3 None None in
  let t := MkTracker {[2 := [("Z", MkInvite "Z" (Some 9) 0 None None)]]}
             (MkDb (MkStore {[(7, 1) := StatsRow 1 4]} ∅ {[(7, 1, 99) := 4]}) []) in
  let t' := on_member_join guild 100 (Some [x]) (Some [x]) t in
  t' = cache_invites guild (Some [x]) t
  ∧ invite_stats (tables (db t')) = invite_stats (tables (db t))
  ∧ daily_stats (tables (db t')) = daily_stats (tables (db t)).
Proof.
  intros guild x t t'.
  destruct (on_member_join_uncached guild 100 (Some [x]) (Some [x]) t eq_refl)
    as (Heq & Hstats & Hdaily & _).
  split_and!; [exact Heq | exact Hstats | exact Hdaily].
Defined.

(** *** The stored number of created invites *)

(** C4.  The stored [total_invites] is not kept equal to the number of
    cached invites of the user.  Starting from a new tracker on an empty
    database, user 7 creates the invite X: the stored count is 1.  When X is
    deleted the cache of the guild is empty, [update_invite_counts] writes
    a count only for the users that still have a cached invite, and the
    stored count of user 7 stays 1.  And a member join on a guild that was
    not cached fills the cache with the invite X of user 7 through the final
    [cache_invites], which never calls [update_invite_counts]: the stored
    count of user 7 is 0 while the cache holds one invite of that user. *)
Theorem invite_counts_not_resynchronised :
  let guild := MkGuild 1 true in
  let x := MkInvite "X" (Some 7) 0 None None in
  let t1 := on_invite_create guild x None (new_tracker []) in
  let t2 := on_invite_delete guild "X" None t1 in
  let t3 := on_member_join guild 100 (Some [x]) (Some [x]) (new_tracker []) in
  (cached_invites_of t1 1 7 = 1 ∧ created (tables (db t1)) 1 7 = 1)
  ∧ (cached_invites_of t2 1 7 = 0 ∧ created (tables (db t2)) 1 7 = 1)
  ∧ (cached_invites_of t3 1 7 = 1 ∧ created (tables (db t3)) 1 7 = 0).
Proof. vm_compute. repeat split. Qed.

(** *** The keys of every cached dictionary stay distinct *)

Lemma cache_wf_with_db f t : cache_wf t → cache_wf (with_db f t).
Proof. done. Qed.

Lemma cache_wf_alter f g t :
  (∀ d, NoDup d.*1 → NoDup (f d).*1) →
  cache_wf t → cache_wf (with_cache (alter f g) t).
Proof.
  unfold cache_wf. intros Hf Hwf g' d. tracker_simpl.
  destruct (decide (g = g')) as [->|Hne].
  - rewrite lookup_alter_eq. destruct (invite_cache t !! g') as [d'|] eqn:Hd; [|done].
    intros [= <-]. apply Hf. by apply (Hwf g').
  - rewrite lookup_alter_ne by done. apply Hwf.
Qed.

Lemma cache_wf_reset g t :
  cache_wf t → cache_wf (with_cache (<[g := []]>) t).
Proof.
  unfold cache_wf. intros Hwf. tracker_simpl.
  apply map_Forall_insert_2; [apply NoDup_nil_2 | done].
Qed.

Lemma cache_wf_setitem g k v t : cache_wf t → cache_wf (cache_setitem g k v t).
Proof. unfold cache_setitem. apply cache_wf_alter. intros d. apply dict_set_NoDup. Qed.

Lemma cache_wf_delitem g k t : cache_wf t → cache_wf (cache_delitem g k t).
Proof. unfold cache_delitem. apply cache_wf_alter. intros d. apply dict_del_NoDup. Qed.

Lemma cache_wf_credit_inviter guild today old_invite t :
  cache_wf t → cache_wf (credit_inviter guild today old_invite t).
Proof. unfold credit_inviter. by case_decide. Qed.

Lemma cache_wf_cache_invites guild fetched t :
  cache_wf t → cache_wf (cache_invites guild fetched t).
Proof.
  intros Hwf. unfold cache_invites. destruct (manage_guild guild); simpl; [|done].
  destruct fetched as [invites|]; [|done].
  apply (cache_wf_reset (guild_id guild)) in Hwf. revert Hwf.
  generalize (with_cache <[guild_id guild:=[]]> t).
  induction invites as [|x l IH]; intros t0 Hwf; [done|]. simpl.
  apply IH. unfold cache_one.
  by apply cache_wf_with_db, cache_wf_with_db, cache_wf_setitem.
Qed.

Lemma cache_wf_update_invite_counts guild fetched t :
  cache_wf t → cache_wf (update_invite_counts guild fetched t).
Proof.
  intros Hwf. unfold update_invite_counts.
  destruct (invite_cache t !! guild_id guild) as [d|].
  - generalize (invite_counts d). intros counts. revert t Hwf.
    induction counts as [|uc counts IH]; intros t Hwf; [done|]. simpl.
    by apply IH, cache_wf_with_db.
  - by apply cache_wf_cache_invites.
Qed.

Lemma cache_wf_compare_with_cached guild today current items t :
  cache_wf t → cache_wf (compare_with_cached guild today current items t).
Proof.
  intros Hwf. induction items as [|[k old] items IH]; simpl; [done|].
  destruct (dict_get k current) as [cur|]; case_decide; try done.
  - by apply cache_wf_with_db, cache_wf_setitem, cache_wf_credit_inviter.
  - by apply cache_wf_delitem, cache_wf_credit_inviter.
Qed.

(** A new tracker has a well-formed cache and every handler keeps it so:
    the hypothesis on distinct keys of the theorems on [on_member_join]
    holds in every state the tracker reaches. *)
Lemma cache_wf_handlers guild today invite invite_code current fetched t :
  cache_wf (new_tracker (sqlite_errors (db t)))
  ∧ (cache_wf t →
     cache_wf (on_invite_create guild invite fetched t)
     ∧ cache_wf (on_invite_delete guild invite_code fetched t)
     ∧ cache_wf (on_member_join guild today current fetched t)).
Proof.
  split; [apply map_Forall_empty|]. intros Hwf. split_and!.
  - unfold on_invite_create.
    apply cache_wf_update_invite_counts, cache_wf_with_db, cache_wf_setitem.
    destruct (invite_cache t !! guild_id guild); [done | by apply cache_wf_reset].
  - unfold on_invite_delete.
    by apply cache_wf_update_invite_counts, cache_wf_with_db, cache_wf_delitem.
  - unfold on_member_join. destruct (manage_guild guild); simpl; [|done].
    destruct current as [current_invites|]; [|done].
    apply cache_wf_cache_invites. unfold find_used_invite.
    destruct (invite_cache t !! guild_id guild); [|done].
    by apply cache_wf_compare_with_cached.
Qed.

(** *** What [update_invite_counts] writes *)

Lemma counts_get_incr_eq u counts :
  counts_get u (counts_incr u counts) = counts_get u counts + 1.
Proof.
  induction counts as [|[u' n] counts IH]; simpl.
  - by rewrite decide_True.
  - destruct (decide (u = u')) as [->|Hne]; simpl.
    + by rewrite decide_True.
    + by rewrite decide_False.
Qed.

Lemma counts_get_incr_ne u u' counts :
  u ≠ u' → counts_get u' (counts_incr u counts) = counts_get u' counts.
Proof.
  intros Hne. induction counts as [|[u0 n] counts IH]; simpl.
  - by rewrite decide_False.
  - destruct (decide (u = u0)) as [->|Hne0]; simpl.
    + by rewrite !decide_False.
    + by rewrite IH.
Qed.

Lemma counts_incr_keys u counts :
  (counts_incr u counts).*1
  = if decide (u ∈ counts.*1) then counts.*1 else counts.*1 ++ [u].
Proof.
  induction counts as [|[u0 n] counts IH]; csimpl; [done|].
  destruct (decide (u = u0)) as [->|Hne]; csimpl.
  - rewrite decide_True by left. done.
  - rewrite IH. destruct (decide (u ∈ counts.*1)) as [Hin|Hnin].
    + rewrite decide_True by (by right). done.
    + rewrite decide_False; [done|]. by intros [?|?]%elem_of_cons.
Qed.

Lemma counts_get_absent u counts : u ∉ counts.*1 → counts_get u counts = 0.
Proof.
  induction counts as [|[u0 n] counts IH]; csimpl; [done|].
  intros [Hne Hnin]%not_elem_of_cons. rewrite decide_False by done. by apply IH.
Qed.

Lemma counts_incr_ok u counts : counts_ok counts → counts_ok (counts_incr u counts).
Proof.
  intros [Hnd Hpos]. split.
  - rewrite counts_incr_keys. destruct (decide (u ∈ counts.*1)); [done|].
    apply NoDup_app. split_and!; [done| |apply NoDup_singleton].
    intros x Hx ->%list_elem_of_singleton. done.
  - intros u' Hin. destruct (decide (u = u')) as [<-|Hne].
    + rewrite counts_get_incr_eq.
      destruct (decide (u ∈ counts.*1)) as [Hu|Hu].
      * specialize (Hpos u Hu). lia.
      * rewrite counts_get_absent by done. lia.
    + rewrite counts_get_incr_ne by done. apply Hpos.
      rewrite counts_incr_keys in Hin.
      destruct (decide (u ∈ counts.*1)); [done|].
      apply elem_of_app in Hin as [?|Hin]; [done|].
      apply list_elem_of_singleton in Hin. congruence.
Qed.

Lemma invite_counts_acc (d : invite_dict) (acc : list (Z * Z)) u :
  counts_ok acc →
  counts_ok (foldl count_step acc d)
  ∧ counts_get u (foldl count_step acc d)
    = counts_get u acc
      + Z.of_nat (length (filter (λ kv : string * Invite, inviter kv.2 = Some u) d)).
Proof.
  revert acc. induction d as [|[k v] d IH]; intros acc Hok.
  - simpl. split; [done | lia].
  - simpl foldl. unfold count_step at 2 4. simpl snd.
    rewrite filter_cons. simpl snd.
    destruct (inviter v) as [id|] eqn:Hv.
    + destruct (IH (counts_incr id acc) (counts_incr_ok _ _ Hok)) as [Hok' ->].
      split; [done|]. destruct (decide (Some id = Some u)) as [[= ->]|Hne].
      * rewrite counts_get_incr_eq. simpl length. lia.
      * rewrite counts_get_incr_ne by congruence. done.
    + destruct (IH acc Hok) as [Hok' ->]. split; [done|].
      by rewrite decide_False.
Qed.

Lemma invite_counts_get t g d u :
  invite_cache t !! g = Some d →
  counts_ok (invite_counts d)
  ∧ counts_get u (invite_counts d) = cached_invites_of t g u.
Proof.
  intros Hd. unfold cached_invites_of. rewrite Hd. simpl.
  assert (counts_ok []) as Hnil.
  { split; [apply NoDup_nil_2 | by intros ? ?%elem_of_nil]. }
  destruct (invite_counts_acc d [] u Hnil) as [Hok Hget].
  split; [exact Hok|]. unfold invite_counts.
  rewrite Hget. simpl. lia.
Qed.

Lemma update_invite_count_sql_created g u n s g' u' :
  created (update_invite_count_sql g u n s) g' u'
  = if decide ((g', u') = (g, u)) then n else created s g' u'.
Proof.
  unfold created, get_user_stats_sql, update_invite_count_sql. simpl.
  destruct (decide ((g', u') = (g, u))) as [[= -> ->]|Hne].
  - rewrite lookup_alter_eq, lookup_insert_or_ignore_eq.
    by destruct (invite_stats s !! (u, g)).
  - rewrite lookup_alter_ne, lookup_insert_or_ignore_ne by congruence. done.
Qed.

Lemma update_invite_count_sql_credited g u n s g' u' :
  credited (update_invite_count_sql g u n s) g' u' = credited s g' u'.
Proof.
  unfold credited, get_user_stats_sql, update_invite_count_sql. simpl.
  destruct (decide ((u', g') = (u, g))) as [[= -> ->]|Hne].
  - rewrite lookup_alter_eq, lookup_insert_or_ignore_eq.
    by destruct (invite_stats s !! (u, g)).
  - rewrite lookup_alter_ne, lookup_insert_or_ignore_ne by congruence. done.
Qed.

Lemma write_counts_created g counts t u :
  NoDup counts.*1 →
  no_sqlite_error (length counts) (db t) →
  let t' := foldl (λ t0 uc, with_db (update_invite_count g uc.1 uc.2) t0) t counts in
  invite_cache t' = invite_cache t
  ∧ created (tables (db t')) g u
    = if decide (u ∈ counts.*1) then counts_get u counts
      else created (tables (db t)) g u.
Proof.
  revert t. induction counts as [|[u0 n0] counts IH]; intros t Hnd Hok; [done|].
  csimpl in Hnd. apply NoDup_cons in Hnd as [Hu0 Hnd].
  simpl foldl. simpl fst. simpl snd.
  destruct (IH (with_db (update_invite_count g u0 n0) t) Hnd) as [Hc Hcr].
  { tracker_simpl. by apply no_sqlite_error_step. }
  split; [by rewrite Hc|]. rewrite Hcr. tracker_simpl.
  unfold update_invite_count. rewrite transaction_commits
    by (by apply (no_sqlite_error_raises (length counts))).
  rewrite update_invite_count_sql_created. csimpl.
  destruct (decide (u = u0)) as [->|Hne].
  - rewrite (decide_False (P := u0 ∈ counts.*1)) by done.
    rewrite decide_True by done. by rewrite decide_True by left.
  - rewrite (decide_False (P := (g, u) = (g, u0))) by congruence.
    destruct (decide (u ∈ counts.*1)) as [Hin|Hnin].
    + by rewrite decide_True by (by right).
    + rewrite decide_False; [done|]. by intros [?|?]%elem_of_cons.
Qed.

(** On a cached guild and without storage error, [update_invite_counts]
    leaves the cache alone and stores, for every user that has at least one
    cached invite, the number of its cached invites; the stored count of a
    user without cached invite is not written. *)
Lemma update_invite_counts_snapshot guild fetched t d u :
  invite_cache t !! guild_id guild = Some d →
  no_sqlite_error (length (invite_counts d)) (db t) →
  let t' := update_invite_counts guild fetched t in
  invite_cache t' = invite_cache t
  ∧ created (tables (db t')) (guild_id guild) u
    = if decide (0 < cached_invites_of t (guild_id guild) u)
      then cached_invites_of t (guild_id guild) u
      else created (tables (db t)) (guild_id guild) u.
Proof.
  intros Hd Hok t'. subst t'. unfold update_invite_counts. rewrite Hd.
  destruct (invite_counts_get t (guild_id guild) d u Hd) as [[Hnd Hpos] Hget].
  destruct (write_counts_created (guild_id guild) (invite_counts d) t u Hnd Hok)
    as [Hc Hcr].
  split; [exact Hc|]. rewrite Hcr, Hget.
  destruct (decide (u ∈ (invite_counts d).*1)) as [Hin|Hnin].
  - specialize (Hpos u Hin). rewrite Hget in Hpos. by rewrite decide_True.
  - apply counts_get_absent in Hnin. rewrite Hget in Hnin.
    rewrite Hnin. by rewrite decide_False by lia.
Qed.

(** *** Cached codes have a row in [invites]

    No statement deletes a row of [invites], and without storage error a
    code enters the cache together with its row: the row that
    [update_invite_usage] needs in [on_member_join] is there in every state
    that the tracker reaches without storage error. *)

Lemma transaction_keeps_rows body :
  (∀ s k, is_Some (invites s !! k) → is_Some (invites (body s) !! k)) →
  keeps_rows (transaction body).
Proof.
  intros Hb d k Hk. unfold transaction. simpl.
  destruct (raises d); [done | by apply Hb].
Qed.

Lemma add_invite_keeps_rows code g i m e : keeps_rows (add_invite code g i m e).
Proof.
  apply transaction_keeps_rows. intros s k Hk. unfold add_invite_sql. simpl.
  destruct (decide (code = k)) as [->|Hne].
  - rewrite lookup_insert_eq. by eexists.
  - by rewrite lookup_insert_ne.
Qed.

Lemma alter_keeps_rows (f : invite_row → invite_row) code
    (m : gmap string invite_row) k :
  is_Some (m !! k) → is_Some (alter f code m !! k).
Proof.
  intros [r Hr]. destruct (decide (code = k)) as [->|Hne].
  - rewrite lookup_alter_eq, Hr. by eexists.
  - rewrite lookup_alter_ne, Hr by done. by eexists.
Qed.

Lemma update_invite_usage_keeps_rows code n :
  keeps_rows (update_invite_usage code n).
Proof. apply transaction_keeps_rows. intros s k. apply alter_keeps_rows. Qed.

Lemma remove_invite_keeps_rows code : keeps_rows (remove_invite code).
Proof. apply transaction_keeps_rows. intros s k. apply alter_keeps_rows. Qed.

Lemma record_invite_use_keeps_rows today g u :
  keeps_rows (record_invite_use today g u).
Proof. by apply transaction_keeps_rows. Qed.

Lemma update_invite_count_keeps_rows g u n :
  keeps_rows (update_invite_count g u n).
Proof. by apply transaction_keeps_rows. Qed.

Lemma transaction_never_raises body d :
  sqlite_errors d = [] → sqlite_errors (transaction body d) = [].
Proof. intros He. unfold transaction. simpl. by rewrite He. Qed.

Lemma cached_rows_with_db f t :
  keeps_rows f → cached_rows_stored t → cached_rows_stored (with_db f t).
Proof. intros Hf Ht g d k Hd Hk. apply Hf. by apply (Ht g d k). Qed.

Lemma cached_rows_reset g t :
  cached_rows_stored t → cached_rows_stored (with_cache (<[g := []]>) t).
Proof.
  intros Ht g' d k. tracker_simpl. destruct (decide (g = g')) as [->|Hne].
  - rewrite lookup_insert_eq. intros [= <-]. csimpl. by intros ?%elem_of_nil.
  - rewrite lookup_insert_ne by done. apply Ht.
Qed.

Lemma cached_rows_setitem g k v t :
  is_Some (invites (tables (db t)) !! k) →
  cached_rows_stored t → cached_rows_stored (cache_setitem g k v t).
Proof.
  intros Hrow Ht g' d k'. unfold cache_setitem. tracker_simpl.
  destruct (decide (g = g')) as [->|Hne].
  - rewrite lookup_alter_eq.
    destruct (invite_cache t !! g') as [d0|] eqn:Hd0; [|done].
    intros [= <-]. rewrite dict_set_keys.
    destruct (decide (k ∈ d0.*1)); [by apply (Ht g')|].
    intros [Hin| ->%list_elem_of_singleton]%elem_of_app; [by apply (Ht g' d0)|done].
  - rewrite lookup_alter_ne by done. apply Ht.
Qed.

Lemma dict_del_keys k k' d : k' ∈ (dict_del k d).*1 → k' ∈ d.*1.
Proof.
  induction d as [|[k0 v0] d IH]; csimpl; [done|].
  destruct (decide (k = k0)); csimpl; [by right|].
  intros [->|Hin]%elem_of_cons; [left | right; by apply IH].
Qed.

Lemma cached_rows_delitem g k t :
  cached_rows_stored t → cached_rows_stored (cache_delitem g k t).
Proof.
  intros Ht g' d k'. unfold cache_delitem. tracker_simpl.
  destruct (decide (g = g')) as [->|Hne].
  - rewrite lookup_alter_eq.
    destruct (invite_cache t !! g') as [d0|] eqn:Hd0; [|done].
    intros [= <-] Hin%dict_del_keys. by apply (Ht g' d0).
  - rewrite lookup_alter_ne by done. apply Ht.
Qed.

Lemma cached_rows_credit_inviter guild today old_invite t :
  cached_rows_stored t → cached_rows_stored (credit_inviter guild today old_invite t).
Proof.
  unfold credit_inviter. case_decide; [|done].
  apply cached_rows_with_db, record_invite_use_keeps_rows.
Qed.

Lemma credit_inviter_never_raises guild today old_invite t :
  sqlite_errors (db t) = [] →
  sqlite_errors (db (credit_inviter guild today old_invite t)) = [].
Proof.
  unfold credit_inviter. case_decide; [|done].
  tracker_simpl. apply transaction_never_raises.
Qed.

Lemma cached_rows_cache_one guild t x :
  sqlite_errors (db t) = [] → cached_rows_stored t →
  sqlite_errors (db (cache_one guild t x)) = []
  ∧ cached_rows_stored (cache_one guild t x).
Proof.
  intros He Ht. split.
  - unfold cache_one. tracker_simpl.
    by apply transaction_never_raises, transaction_never_raises.
  - intros g d k Hd Hk.
    assert (no_sqlite_error 2 (db t)) as Hok.
    { unfold no_sqlite_error. rewrite He. by rewrite take_nil. }
    rewrite cache_one_rows by done.
    destruct (decide (code x = k)) as [|Hne]; [by eexists|].
    revert Hd Hk. unfold cache_one, cache_setitem. tracker_simpl.
    destruct (decide (guild_id guild = g)) as [<-|Hg].
    + rewrite lookup_alter_eq.
      destruct (invite_cache t !! guild_id guild) as [d0|] eqn:Hd0; [|done].
      intros [= <-]. rewrite dict_set_keys.
      destruct (decide (code x ∈ d0.*1)); [by apply (Ht (guild_id guild))|].
      intros [Hin| ->%list_elem_of_singleton]%elem_of_app; [|done].
      by apply (Ht (guild_id guild) d0).
    + rewrite lookup_alter_ne by done. apply Ht.
Qed.

Lemma cached_rows_cache_invites guild fetched t :
  sqlite_errors (db t) = [] → cached_rows_stored t →
  sqlite_errors (db (cache_invites guild fetched t)) = []
  ∧ cached_rows_stored (cache_invites guild fetched t).
Proof.
  intros He Ht. unfold cache_invites.
  destruct (manage_guild guild); simpl; [|done].
  destruct fetched as [l|]; [|done].
  apply (cached_rows_reset (guild_id guild)) in Ht.
  assert (sqlite_errors (db (with_cache <[guild_id guild:=[]]> t)) = []) as He'
    by done.
  revert He' Ht. generalize (with_cache <[guild_id guild:=[]]> t).
  induction l as [|x l IH]; intros t0 He0 Ht0; [done|]. simpl.
  destruct (cached_rows_cache_one guild t0 x He0 Ht0) as [He1 Ht1].
  by apply IH.
Qed.

Lemma cached_rows_update_invite_counts guild fetched t :
  sqlite_errors (db t) = [] → cached_rows_stored t →
  sqlite_errors (db (update_invite_counts guild fetched t)) = []
  ∧ cached_rows_stored (update_invite_counts guild fetched t).
Proof.
  intros He Ht. unfold update_invite_counts.
  destruct (invite_cache t !! guild_id guild) as [d|].
  - generalize (invite_counts d). intros counts. revert t He Ht.
    induction counts as [|uc counts IH]; intros t He Ht; [done|]. simpl.
    apply IH.
    + tracker_simpl. by apply transaction_never_raises.
    + apply cached_rows_with_db; [apply update_invite_count_keeps_rows | done].
  - by apply cached_rows_cache_invites.
Qed.

Lemma cached_rows_compare_with_cached guild today current items t :
  Forall (λ kv : string * Invite, is_Some (invites (tables (db t)) !! kv.1)) items →
  sqlite_errors (db t) = [] → cached_rows_stored t →
  sqlite_errors (db (compare_with_cached guild today current items t)) = []
  ∧ cached_rows_stored (compare_with_cached guild today current items t).
Proof.
  induction 1 as [|[k old] items Hk _ IH]; intros He Ht; simpl; [done|].
  simpl in Hk.
  destruct (dict_get k current) as [cur|]; case_decide; try by apply IH.
  - split.
    + tracker_simpl.
      by apply transaction_never_raises, credit_inviter_never_raises.
    + apply cached_rows_with_db; [apply update_invite_usage_keeps_rows|].
      apply cached_rows_setitem; [|by apply cached_rows_credit_inviter].
      by rewrite credit_inviter_invites.
  - split.
    + tracker_simpl. by apply credit_inviter_never_raises.
    + by apply cached_rows_delitem, cached_rows_credit_inviter.
Qed.

(** From a new tracker on, as long as sqlite never raises, every handler
    keeps a row in [invites] for every cached code. *)
Lemma cached_rows_handlers guild today invite invite_code current fetched t :
  cached_rows_stored (new_tracker [])
  ∧ (sqlite_errors (db t) = [] → cached_rows_stored t →
     cached_rows_stored (on_invite_create guild invite fetched t)
     ∧ cached_rows_stored (on_invite_delete guild invite_code fetched t)
     ∧ cached_rows_stored (on_member_join guild today current fetched t)).
Proof.
  split.
  { intros g d k Hd. simpl in Hd. by rewrite lookup_empty in Hd. }
  intros He Ht. split_and!.
  - unfold on_invite_create.
    set (t0 := match invite_cache t !! guild_id guild with
               | Some _ => t
               | None => with_cache <[guild_id guild:=[]]> t
               end).
    assert (cached_rows_stored t0 ∧ db t0 = db t) as [Ht0 Hdb].
    { subst t0. destruct (invite_cache t !! guild_id guild);
        [done | split; [by apply cached_rows_reset | done]]. }
    apply cached_rows_update_invite_counts.
    + tracker_simpl. rewrite Hdb. by apply transaction_never_raises.
    + intros g d k Hd Hk. tracker_simpl. rewrite Hdb.
      unfold add_invite. rewrite transaction_commits
        by (unfold raises; by rewrite He).
      unfold add_invite_sql. simpl.
      destruct (decide (code invite = k)) as [->|Hne].
      { rewrite lookup_insert_eq. by eexists. }
      rewrite lookup_insert_ne by done.
      revert Hd Hk. unfold cache_setitem. tracker_simpl.
      destruct (decide (guild_id guild = g)) as [<-|Hg].
      * rewrite lookup_alter_eq.
        destruct (invite_cache t0 !! guild_id guild) as [d0|] eqn:Hd0; [|done].
        intros [= <-]. rewrite dict_set_keys.
        destruct (decide (code invite ∈ d0.*1)).
        { intros Hk. rewrite <- Hdb. by apply (Ht0 (guild_id guild) d0). }
        intros [Hin| ->%list_elem_of_singleton]%elem_of_app; [|done].
        rewrite <- Hdb. by apply (Ht0 (guild_id guild) d0).
      * rewrite lookup_alter_ne by done. intros Hd Hk.
        rewrite <- Hdb. by apply (Ht0 g d).
  - unfold on_invite_delete. apply cached_rows_update_invite_counts.
    + tracker_simpl. by apply transaction_never_raises.
    + apply cached_rows_with_db; [apply remove_invite_keeps_rows|].
      by apply cached_rows_delitem.
  - unfold on_member_join. destruct (manage_guild guild); simpl; [|done].
    destruct current as [current_invites|]; [|done].
    unfold find_used_invite.
    destruct (invite_cache t !! guild_id guild) as [cached|] eqn:Hc.
    + destruct (cached_rows_compare_with_cached guild today
                  (dict_of_invites current_invites) cached t) as [He' Ht'];
        [|done|done|by apply cached_rows_cache_invites].
      apply Forall_forall. intros [k v] Hin. simpl.
      apply (Ht (guild_id guild) cached k Hc).
      apply list_elem_of_fmap. by exists (k, v).
    + by apply cached_rows_cache_invites.
Qed.

End TrackerFacts.

(** ** More on the store: queries, life cycle of a row, mixed calls *)

Module DatabaseLaws.
Import Database Tracker DatabaseFacts TrackerFacts.

#[local] Existing Instance sum_Z_perm.

Lemma store_eq (a b : Store) :
  invite_stats a = invite_stats b → invites a = invites b →
  daily_stats a = daily_stats b → a = b.
Proof. destruct a, b. simpl. by intros -> -> ->. Qed.

(** *** [get_leaderboard] *)

Lemma leaderboard_rows_elem g s u ti tu :
  (u, ti, tu) ∈ (λ kv : Z * Z * stats_row,
                   (kv.1.1, total_invites kv.2, total_uses kv.2))
                <$> filter (λ kv : Z * Z * stats_row, kv.1.2 = g)
                      (map_to_list (invite_stats s))
  ↔ invite_stats s !! (u, g) = Some (StatsRow ti tu).
Proof.
  rewrite list_elem_of_fmap. split.
  - intros ([[u' g'] [ti' tu']] & [= -> -> ->] & [Hg Hin]%list_elem_of_filter).
    simpl in Hg. subst g'. by apply elem_of_map_to_list in Hin.
  - intros Hrow. exists (u, g, StatsRow ti tu). split; [done|].
    apply list_elem_of_filter. split; [done|]. by apply elem_of_map_to_list.
Qed.

Lemma leaderboard_rows_NoDup g s :
  NoDup ((λ kv : Z * Z * stats_row, kv.1.1)
           <$> filter (λ kv : Z * Z * stats_row, kv.1.2 = g)
                 (map_to_list (invite_stats s))).
Proof.
  apply NoDup_fmap_2_strong.
  - intros [[u1 g1] r1] [[u2 g2] r2]
      [Hg1 Hin1]%list_elem_of_filter [Hg2 Hin2]%list_elem_of_filter Hu.
    simpl in *. subst g1 g2 u2.
    apply elem_of_map_to_list in Hin1, Hin2. congruence.
  - apply NoDup_filter, NoDup_map_to_list.
Qed.

Lemma sql_limit_length {A} limit (l : list A) :
  0 ≤ limit → (length (sql_limit limit l) ≤ Z.to_nat limit)%nat.
Proof.
  intros Hl. unfold sql_limit. destruct (limit <? 0) eqn:Hneg; [lia|].
  rewrite length_take. lia.
Qed.

(** X1.  [get_leaderboard] lists the rows of [invite_stats] of the guild,
    one per user, ordered by [total_uses] descending and, for equal
    [total_uses], by [total_invites] descending, and keeps the first [limit]
    of them (all of them when [limit] is negative): without the limit a
    triple [(user, total_invites, total_uses)] is listed exactly when the
    user has that row in the guild. *)
Theorem get_leaderboard_ranking g limit s :
  let rows := get_leaderboard_sql g limit s in
  let unlimited := get_leaderboard_sql g (-1) s in
  StronglySorted leaderboard_order rows
  ∧ NoDup (fst <$> (fst <$> rows))
  ∧ rows = sql_limit limit unlimited
  ∧ (0 ≤ limit → (length rows ≤ Z.to_nat limit)%nat)
  ∧ (∀ u ti tu, (u, ti, tu) ∈ unlimited
                ↔ invite_stats s !! (u, g) = Some (StatsRow ti tu)).
Proof.
  intros rows unlimited. subst rows unlimited. unfold get_leaderboard_sql.
  change (sql_limit (-1) ?l) with l. split_and!.
  - apply sql_limit_sorted, StronglySorted_merge_sort; apply _.
  - eapply sublist_NoDup.
    2:{ apply (fmap_sublist fst). apply sql_limit_fmap_sublist. }
    rewrite merge_sort_Permutation, <- !list_fmap_compose.
    apply leaderboard_rows_NoDup.
  - reflexivity.
  - apply sql_limit_length.
  - intros u ti tu. rewrite merge_sort_Permutation.
    apply leaderboard_rows_elem.
Qed.

(** *** Any mix of calls *)

Lemma run_call_transaction c : run_call c = transaction (call_sql c).
Proof. by destruct c. Qed.

Lemma run_calls_cons c calls db :
  run_calls (c :: calls) db = run_calls calls (run_call c db).
Proof. reflexivity. Qed.

Lemma call_sql_credited c s g u :
  credited (call_sql c s) g u
  = credited s g u + (if is_credit g u c then 1 else 0).
Proof.
  destruct c as [k g' i m e|k n|k|d g' u'|g' u' n]; simpl.
  1-3: unfold credited, get_user_stats_sql; simpl; lia.
  - destruct (decide (g' = g ∧ u' = u)) as [[-> ->]|Hgu].
    + rewrite bool_decide_eq_true_2 by done.
      apply record_invite_use_sql_credited.
    + rewrite bool_decide_eq_false_2 by done.
      unfold credited, get_user_stats_sql.
      rewrite record_invite_use_sql_other_stats; [lia|].
      intros [= -> ->]. by apply Hgu.
  - rewrite update_invite_count_sql_credited. lia.
Qed.

Lemma call_sql_created c s g u :
  created (call_sql c s) g u
  = match c with
    | UpdateInviteCount g' u' n =>
        if decide (g' = g ∧ u' = u) then n else created s g u
    | _ => created s g u
    end.
Proof.
  destruct c as [k g' i m e|k n|k|d g' u'|g' u' n]; simpl; try done.
  - apply record_invite_use_sql_created.
  - rewrite update_invite_count_sql_created.
    destruct (decide ((g, u) = (g', u'))) as [[= -> ->]|Hne].
    + by rewrite decide_True.
    + rewrite decide_False; [done|]. intros [-> ->]. by apply Hne.
Qed.

Lemma credits_for_cons g u c calls :
  credits_for g u (c :: calls)
  = ((if is_credit g u c then 1 else 0) + credits_for g u calls)%nat.
Proof.
  unfold credits_for. rewrite filter_cons.
  destruct (is_credit g u c); [by rewrite decide_True | by rewrite decide_False].
Qed.

Lemma run_calls_credited_bounds g u calls db :
  credited (tables db) g u ≤ credited (tables (run_calls calls db)) g u
  ∧ credited (tables (run_calls calls db)) g u
    ≤ credited (tables db) g u + Z.of_nat (credits_for g u calls).
Proof.
  revert db. induction calls as [|c calls IH]; intros db.
  - simpl. lia.
  - rewrite run_calls_cons, credits_for_cons.
    destruct (IH (run_call c db)) as [Hlo Hhi].
    assert (credited (tables db) g u ≤ credited (tables (run_call c db)) g u
            ∧ credited (tables (run_call c db)) g u
              ≤ credited (tables db) g u + (if is_credit g u c then 1 else 0))
      as [Hlo1 Hhi1].
    { rewrite run_call_transaction. unfold transaction. simpl.
      destruct (raises db).
      - destruct (is_credit g u c); lia.
      - rewrite call_sql_credited. destruct (is_credit g u c); lia. }
    destruct (is_credit g u c); lia.
Qed.

Lemma run_calls_counters g u calls db :
  no_sqlite_error (length calls) db →
  credited (tables (run_calls calls db)) g u
    = credited (tables db) g u + Z.of_nat (credits_for g u calls)
  ∧ created (tables (run_calls calls db)) g u
    = default (created (tables db) g u) (last_count g u calls).
Proof.
  revert db. induction calls as [|c calls IH]; intros db Hok.
  - unfold credits_for. rewrite filter_nil. simpl. split; [lia | done].
  - rewrite run_calls_cons, credits_for_cons.
    assert (raises db = false) as Hr by (by apply (no_sqlite_error_raises (length calls))).
    destruct (IH (run_call c db)) as [-> ->].
    { rewrite run_call_transaction. by apply no_sqlite_error_step. }
    rewrite run_call_transaction, transaction_commits by done.
    rewrite call_sql_credited, call_sql_created. split.
    + destruct (is_credit g u c); lia.
    + simpl. destruct (last_count g u calls); [done|].
      destruct c as [k g' i m e|k n|k|d g' u'|g' u' n]; try done.
      by case_decide.
Qed.

(** X2.  Whatever writing methods of the database are called, in whatever
    order and whichever of them meet a storage error, the [total_uses] of a
    user of a guild never goes down and grows by at most the number of calls
    of [record_invite_use] made for that user and guild.  When no call meets
    a storage error it has grown by exactly that number, and the user's
    [total_invites] is the count passed by the last [update_invite_count]
    for that user and guild (unchanged when there is none): [total_uses] is
    only written by [record_invite_use] and [total_invites] only by
    [update_invite_count]. *)
Theorem stats_counters_under_any_calls g u calls db :
  let final := tables (run_calls calls db) in
  credited (tables db) g u ≤ credited final g u
  ∧ credited final g u ≤ credited (tables db) g u + Z.of_nat (credits_for g u calls)
  ∧ (no_sqlite_error (length calls) db →
     credited final g u
       = credited (tables db) g u + Z.of_nat (credits_for g u calls)
     ∧ created final g u
       = default (created (tables db) g u) (last_count g u calls)).
Proof.
  intros final. subst final.
  destruct (run_calls_credited_bounds g u calls db) as [Hlo Hhi].
  split_and!; [exact Hlo | exact Hhi |]. apply run_calls_counters.
Qed.

(** *** The rows of [invites] *)

Lemma run_call_keeps_rows c : keeps_rows (run_call c).
Proof.
  destruct c; simpl.
  - apply add_invite_keeps_rows.
  - apply update_invite_usage_keeps_rows.
  - apply remove_invite_keeps_rows.
  - apply record_invite_use_keeps_rows.
  - apply update_invite_count_keeps_rows.
Qed.

Lemma alter_absent {A} (f : A → A) (m : gmap string A) k :
  m !! k = None → alter f k m = m.
Proof.
  intros Hk. apply map_eq. intros j. destruct (decide (k = j)) as [->|Hne].
  - by rewrite lookup_alter_eq, Hk.
  - by rewrite lookup_alter_ne.
Qed.

Lemma call_sql_creates_no_row c s k :
  (∀ g i m e, c ≠ AddInvite k g i m e) →
  invites s !! k = None → invites (call_sql c s) !! k = None.
Proof.
  intros Hc Hk. destruct c as [k' g i m e|k' n|k'|d g u|g u n]; simpl; try done.
  - destruct (decide (k' = k)) as [->|Hne]; [by destruct (Hc g i m e)|].
    by rewrite lookup_insert_ne.
  - destruct (decide (k' = k)) as [->|Hne].
    + by rewrite lookup_alter_eq, Hk.
    + by rewrite lookup_alter_ne.
  - destruct (decide (k' = k)) as [->|Hne].
    + by rewrite lookup_alter_eq, Hk.
    + by rewrite lookup_alter_ne.
Qed.

(** X3.  No method of the database deletes a row of [invites], and only
    [add_invite] creates one: through any sequence of calls, with or without
    storage errors, a code that has a row keeps one, and a code without a row
    has none as long as [add_invite] is not called for it.  In particular
    [update_invite_usage] and [remove_invite] for a code that has no row
    leave the tables as they are. *)
Theorem invites_rows_persist calls db k :
  (is_Some (invites (tables db) !! k) →
   is_Some (invites (tables (run_calls calls db)) !! k))
  ∧ (invites (tables db) !! k = None →
     Forall (λ c, ∀ g i m e, c ≠ AddInvite k g i m e) calls →
     invites (tables (run_calls calls db)) !! k = None)
  ∧ (invites (tables db) !! k = None →
     ∀ n, tables (update_invite_usage k n db) = tables db
          ∧ tables (remove_invite k db) = tables db).
Proof.
  split_and!.
  - revert db. induction calls as [|c calls IH]; intros db Hk; [done|].
    rewrite run_calls_cons. by apply IH, run_call_keeps_rows.
  - intros Hk Hall. revert db Hk.
    induction Hall as [|c calls Hc _ IH]; intros db Hk; [done|].
    rewrite run_calls_cons. apply IH.
    rewrite run_call_transaction. unfold transaction. simpl.
    destruct (raises db); [done | by apply call_sql_creates_no_row].
  - intros Hk n. unfold update_invite_usage, remove_invite, transaction. simpl.
    destruct (raises db); [done|]. split.
    + apply store_eq; simpl; [done | by apply alter_absent | done].
    + apply store_eq; simpl; [done | by apply alter_absent | done].
Qed.

(** *** A recorded join and the rolling leaderboard *)







End DatabaseLaws.

(** ** More on the attribution engine *)

Module TrackerLaws.
Import Database Tracker DatabaseFacts TrackerFacts DatabaseLaws.

#[local] Hint Rewrite db_with_db db_with_cache invite_cache_with_db
  invite_cache_with_cache : tracker.

(** *** What the handlers of one guild leave alone *)

Lemma same_elsewhere_refl g t : same_elsewhere g t t.
Proof. by split_and!. Qed.

Lemma same_elsewhere_trans g t1 t2 t3 :
  same_elsewhere g t1 t2 → same_elsewhere g t2 t3 → same_elsewhere g t1 t3.
Proof.
  intros (Hc1 & Hs1 & Hd1) (Hc2 & Hs2 & Hd2). split_and!.
  - intros g' Hne. by rewrite Hc2, Hc1.
  - intros g' u Hne. by rewrite Hs2, Hs1.
  - intros g' u d Hne. by rewrite Hd2, Hd1.
Qed.

Lemma same_elsewhere_transaction g body t :
  (∀ s g' u, g' ≠ g → invite_stats (body s) !! (u, g') = invite_stats s !! (u, g')) →
  (∀ s g' u d, g' ≠ g →
     daily_stats (body s) !! (u, g', d) = daily_stats s !! (u, g', d)) →
  same_elsewhere g t (with_db (transaction body) t).
Proof.
  intros Hs Hd. split_and!; [done | |]; tracker_simpl; unfold transaction; simpl.
  - intros g' u Hne. destruct (raises (db t)); [done | by apply Hs].
  - intros g' u d Hne. destruct (raises (db t)); [done | by apply Hd].
Qed.

Lemma same_elsewhere_add_invite g k i m e t :
  same_elsewhere g t (with_db (add_invite k g i m e) t).
Proof. by apply same_elsewhere_transaction. Qed.

Lemma same_elsewhere_update_invite_usage g k n t :
  same_elsewhere g t (with_db (update_invite_usage k n) t).
Proof. by apply same_elsewhere_transaction. Qed.

Lemma same_elsewhere_remove_invite g k t :
  same_elsewhere g t (with_db (remove_invite k) t).
Proof. by apply same_elsewhere_transaction. Qed.

Lemma same_elsewhere_record g today u t :
  same_elsewhere g t (with_db (record_invite_use today g u) t).
Proof.
  apply same_elsewhere_transaction.
  - intros s g' u' Hne. apply record_invite_use_sql_other_stats. congruence.
  - intros s g' u' d Hne. apply record_invite_use_sql_other_daily. congruence.
Qed.

Lemma same_elsewhere_update_invite_count g u n t :
  same_elsewhere g t (with_db (update_invite_count g u n) t).
Proof.
  apply same_elsewhere_transaction; [|done].
  intros s g' u' Hne. unfold update_invite_count_sql. simpl.
  rewrite lookup_alter_ne, lookup_insert_or_ignore_ne by congruence. done.
Qed.

Lemma same_elsewhere_alter g f t :
  same_elsewhere g t (with_cache (alter f g) t).
Proof.
  split_and!; [|done|done]. intros g' Hne. tracker_simpl.
  by rewrite lookup_alter_ne.
Qed.

Lemma same_elsewhere_reset g t :
  same_elsewhere g t (with_cache (<[g := []]>) t).
Proof.
  split_and!; [|done|done]. intros g' Hne. tracker_simpl.
  by rewrite lookup_insert_ne.
Qed.

Lemma same_elsewhere_credit_inviter guild today old_invite t :
  same_elsewhere (guild_id guild) t (credit_inviter guild today old_invite t).
Proof.
  unfold credit_inviter. case_decide.
  - apply same_elsewhere_record.
  - apply same_elsewhere_refl.
Qed.

Lemma same_elsewhere_cache_invites guild fetched t :
  same_elsewhere (guild_id guild) t (cache_invites guild fetched t).
Proof.
  unfold cache_invites. destruct (manage_guild guild); simpl;
    [|apply same_elsewhere_refl].
  destruct fetched as [l|]; [|apply same_elsewhere_refl].
  eapply same_elsewhere_trans; [apply same_elsewhere_reset|].
  generalize (with_cache <[guild_id guild:=[]]> t). intros t0. revert t0.
  induction l as [|x l IH]; intros t0; [apply same_elsewhere_refl|]. simpl.
  eapply same_elsewhere_trans; [|apply IH]. unfold cache_one.
  eapply same_elsewhere_trans; [apply same_elsewhere_alter|].
  eapply same_elsewhere_trans; [apply same_elsewhere_add_invite|].
  apply same_elsewhere_update_invite_usage.
Qed.

Lemma same_elsewhere_update_invite_counts guild fetched t :
  same_elsewhere (guild_id guild) t (update_invite_counts guild fetched t).
Proof.
  unfold update_invite_counts.
  destruct (invite_cache t !! guild_id guild) as [d|];
    [|apply same_elsewhere_cache_invites].
  generalize (invite_counts d). intros counts. revert t.
  induction counts as [|uc counts IH]; intros t; [apply same_elsewhere_refl|].
  simpl. eapply same_elsewhere_trans; [|apply IH].
  apply same_elsewhere_update_invite_count.
Qed.

Lemma same_elsewhere_compare_with_cached guild today current items t :
  same_elsewhere (guild_id guild) t
    (compare_with_cached guild today current items t).
Proof.
  induction items as [|[k old] items IH]; simpl; [apply same_elsewhere_refl|].
  destruct (dict_get k current) as [cur|]; case_decide; try done.
  - eapply same_elsewhere_trans; [apply same_elsewhere_credit_inviter|].
    eapply same_elsewhere_trans; [apply same_elsewhere_alter|].
    apply same_elsewhere_update_invite_usage.
  - eapply same_elsewhere_trans; [apply same_elsewhere_credit_inviter|].
    apply same_elsewhere_alter.
Qed.

(** X5.  Guilds are independent: [cache_invites], [update_invite_counts],
    [on_invite_create], [on_invite_delete] and [on_member_join] for one guild
    change neither the cache of another guild nor a row of [invite_stats] or
    [daily_stats] of another guild, whatever is fetched and whichever calls
    meet a storage error. *)
Theorem handlers_leave_other_guilds guild today invite invite_code
    current fetched t :
  same_elsewhere (guild_id guild) t (cache_invites guild fetched t)
  ∧ same_elsewhere (guild_id guild) t (update_invite_counts guild fetched t)
  ∧ same_elsewhere (guild_id guild) t (on_invite_create guild invite fetched t)
  ∧ same_elsewhere (guild_id guild) t
      (on_invite_delete guild invite_code fetched t)
  ∧ same_elsewhere (guild_id guild) t
      (on_member_join guild today current fetched t).
Proof.
  split_and!.
  - apply same_elsewhere_cache_invites.
  - apply same_elsewhere_update_invite_counts.
  - unfold on_invite_create.
    eapply same_elsewhere_trans; [|apply same_elsewhere_update_invite_counts].
    eapply same_elsewhere_trans; [|apply same_elsewhere_add_invite].
    eapply same_elsewhere_trans; [|apply same_elsewhere_alter].
    destruct (invite_cache t !! guild_id guild);
      [apply same_elsewhere_refl | apply same_elsewhere_reset].
  - unfold on_invite_delete.
    eapply same_elsewhere_trans; [|apply same_elsewhere_update_invite_counts].
    eapply same_elsewhere_trans; [|apply same_elsewhere_remove_invite].
    apply same_elsewhere_alter.
  - unfold on_member_join. destruct (manage_guild guild); simpl;
      [|apply same_elsewhere_refl].
    destruct current as [l|]; [|apply same_elsewhere_refl].
    eapply same_elsewhere_trans; [|apply same_elsewhere_cache_invites].
    unfold find_used_invite.
    destruct (invite_cache t !! guild_id guild);
      [apply same_elsewhere_compare_with_cached | apply same_elsewhere_refl].
Qed.

(** *** A join credits at most one inviter, once *)

Lemma credit_inviter_once guild today old_invite t :
  let t' := credit_inviter guild today old_invite t in
  tables (db t') = tables (db t)
  ∨ (∃ u, inviter old_invite = Some u ∧ u ≠ 0
        ∧ tables (db t')
          = record_invite_use_sql today (guild_id guild) u (tables (db t))).
Proof.
  intros t'. subst t'. rewrite credit_inviter_db. unfold inviter_id_or_0.
  destruct (inviter old_invite) as [u|]; case_decide; try by left.
  unfold record_invite_use, transaction. simpl.
  destruct (raises (db t)); [by left | right]. by exists u.
Qed.

Lemma compare_with_cached_once guild today current items t :
  let t' := compare_with_cached guild today current items t in
  (invite_stats (tables (db t')) = invite_stats (tables (db t))
   ∧ daily_stats (tables (db t')) = daily_stats (tables (db t)))
  ∨ (∃ k old_invite u,
        (k, old_invite) ∈ items ∧ inviter old_invite = Some u ∧ u ≠ 0
        ∧ invite_stats (tables (db t'))
          = invite_stats (record_invite_use_sql today (guild_id guild) u (tables (db t)))
        ∧ daily_stats (tables (db t'))
          = daily_stats (record_invite_use_sql today (guild_id guild) u (tables (db t)))).
Proof.
  induction items as [|[k old] items IH]; simpl; [by left|].
  assert (∀ t1 : InviteTracker,
    invite_stats (tables (db t1))
      = invite_stats (tables (db (credit_inviter guild today old t))) →
    daily_stats (tables (db t1))
      = daily_stats (tables (db (credit_inviter guild today old t))) →
    (invite_stats (tables (db t1)) = invite_stats (tables (db t))
     ∧ daily_stats (tables (db t1)) = daily_stats (tables (db t)))
    ∨ (∃ k0 old_invite u,
        (k0, old_invite) ∈ (k, old) :: items ∧ inviter old_invite = Some u ∧ u ≠ 0
        ∧ invite_stats (tables (db t1))
          = invite_stats (record_invite_use_sql today (guild_id guild) u (tables (db t)))
        ∧ daily_stats (tables (db t1))
          = daily_stats (record_invite_use_sql today (guild_id guild) u (tables (db t)))))
    as Hstep.
  { intros t1 Hs Hd.
    destruct (credit_inviter_once guild today old t) as [Heq|(u & Hu & Hne & Heq)].
    - left. by rewrite Hs, Hd, Heq.
    - right. exists k, old, u. split_and!; [left | done | done | |].
      + by rewrite Hs, Heq.
      + by rewrite Hd, Heq. }
  destruct (dict_get k current) as [cur|]; case_decide.
  - apply Hstep; tracker_simpl; unfold update_invite_usage.
    + by rewrite transaction_invite_stats.
    + by rewrite transaction_daily_stats.
  - destruct IH as [?|(k0 & o & u & Hin & ?)]; [by left | right].
    exists k0, o, u. split; [by right | done].
  - apply Hstep; by tracker_simpl.
  - destruct IH as [?|(k0 & o & u & Hin & ?)]; [by left | right].
    exists k0, o, u. split; [by right | done].
Qed.

(** X6.  A member join never credits twice.  Whatever the cache and the
    fetched lists are, after [on_member_join] the tables [invite_stats] and
    [daily_stats] are either unchanged or exactly what one
    [record_invite_use] makes of them, for the day of the join and for the
    inviter (with an id other than 0) of an invite that was in the cache of
    that guild: at most one user gains, and gains exactly 1. *)
Theorem on_member_join_credits_at_most_once guild today current refetched t :
  let t' := on_member_join guild today current refetched t in
  (invite_stats (tables (db t')) = invite_stats (tables (db t))
   ∧ daily_stats (tables (db t')) = daily_stats (tables (db t)))
  ∨ (∃ cached k old_invite u,
        invite_cache t !! guild_id guild = Some cached
        ∧ (k, old_invite) ∈ cached ∧ inviter old_invite = Some u ∧ u ≠ 0
        ∧ invite_stats (tables (db t'))
          = invite_stats (record_invite_use_sql today (guild_id guild) u (tables (db t)))
        ∧ daily_stats (tables (db t'))
          = daily_stats (record_invite_use_sql today (guild_id guild) u (tables (db t)))).
Proof.
  intros t'. subst t'. unfold on_member_join.
  destruct (manage_guild guild); simpl; [|by left].
  destruct current as [l|]; [|by left].
  destruct (cache_invites_counters guild refetched
              (find_used_invite guild today l t)) as [-> ->].
  unfold find_used_invite.
  destruct (invite_cache t !! guild_id guild) as [cached|] eqn:Hc; [|by left].
  destruct (compare_with_cached_once guild today (dict_of_invites l) cached t)
    as [?|(k & o & u & ?)]; [by left | right].
  by exists cached, k, o, u.
Qed.

(** *** [update_invite_counts] *)

Lemma write_counts_frame g counts t :
  let t' := foldl (λ t0 uc, with_db (update_invite_count g uc.1 uc.2) t0) t counts in
  invites (tables (db t')) = invites (tables (db t))
  ∧ daily_stats (tables (db t')) = daily_stats (tables (db t))
  ∧ ∀ g' u', credited (tables (db t')) g' u' = credited (tables (db t)) g' u'.
Proof.
  revert t. induction counts as [|[u n] counts IH]; intros t; [done|]. simpl.
  destruct (IH (with_db (update_invite_count g u n) t)) as (-> & -> & Hcr).
  tracker_simpl. unfold update_invite_count.
  rewrite transaction_invites, transaction_daily_stats by done.
  split_and!; [done | done |]. intros g' u'. rewrite Hcr. tracker_simpl.
  unfold transaction. simpl. destruct (raises (db t)); [done|].
  apply update_invite_count_sql_credited.
Qed.

(** X7.  [update_invite_counts] on a guild that is not cached only calls
    [cache_invites] and writes no count.  On a cached guild it leaves the
    cache, the table [invites], the table [daily_stats] and every
    [total_uses] as they are and, when no storage error occurs, writes the
    number of cached invites of every user that has at least one; the stored
    [total_invites] of a user without cached invite is left as it was. *)
Theorem update_invite_counts_effect guild fetched t :
  let g := guild_id guild in
  let t' := update_invite_counts guild fetched t in
  (invite_cache t !! g = None → t' = cache_invites guild fetched t)
  ∧ (∀ d, invite_cache t !! g = Some d →
       invite_cache t' = invite_cache t
       ∧ invites (tables (db t')) = invites (tables (db t))
       ∧ daily_stats (tables (db t')) = daily_stats (tables (db t))
       ∧ (∀ g' u', credited (tables (db t')) g' u' = credited (tables (db t)) g' u')
       ∧ (no_sqlite_error (length (invite_counts d)) (db t) →
          ∀ u, created (tables (db t')) g u
               = if decide (0 < cached_invites_of t g u)
                 then cached_invites_of t g u
                 else created (tables (db t)) g u)).
Proof.
  intros g t'. subst g t'. split.
  - intros Hc. unfold update_invite_counts. by rewrite Hc.
  - intros d Hd.
    assert (invite_cache (update_invite_counts guild fetched t) = invite_cache t)
      as Hcache.
    { unfold update_invite_counts. rewrite Hd.
      generalize (invite_counts d). intros counts. revert t Hd.
      induction counts as [|uc counts IH]; intros t Hd; [done|]. simpl.
      by rewrite IH. }
    pose proof (write_counts_frame (guild_id guild) (invite_counts d) t)
      as (Hinv & Hdaily & Hcr).
    unfold update_invite_counts. unfold update_invite_counts in Hcache.
    rewrite Hd in *. split_and!; [done..|].
    intros Hok u.
    pose proof (update_invite_counts_snapshot guild fetched t d u Hd Hok) as [_ H].
    unfold update_invite_counts in H. by rewrite Hd in H.
Qed.

(** *** Runs without storage error *)

Lemma no_sqlite_error_nil n d : sqlite_errors d = [] → no_sqlite_error n d.
Proof. intros He. unfold no_sqlite_error. rewrite He. by rewrite take_nil. Qed.

Lemma cache_invites_never_raises guild fetched t :
  sqlite_errors (db t) = [] → sqlite_errors (db (cache_invites guild fetched t)) = [].
Proof.
  intros He. unfold cache_invites. destruct (manage_guild guild); simpl; [|done].
  destruct fetched as [l|]; [|done].
  assert (sqlite_errors (db (with_cache <[guild_id guild:=[]]> t)) = []) as He'
    by done.
  revert He'. generalize (with_cache <[guild_id guild:=[]]> t).
  induction l as [|x l IH]; intros t0 He0; [done|]. simpl. apply IH.
  unfold cache_one. tracker_simpl.
  by apply transaction_never_raises, transaction_never_raises.
Qed.

Lemma update_invite_counts_never_raises guild fetched t :
  sqlite_errors (db t) = [] →
  sqlite_errors (db (update_invite_counts guild fetched t)) = [].
Proof.
  intros He. unfold update_invite_counts.
  destruct (invite_cache t !! guild_id guild) as [d|];
    [|by apply cache_invites_never_raises].
  generalize (invite_counts d). intros counts. revert t He.
  induction counts as [|uc counts IH]; intros t He; [done|]. simpl.
  apply IH. tracker_simpl. by apply transaction_never_raises.
Qed.

(** *** [cache_invites] *)

(** X8.  [cache_invites] never touches [invite_stats] or [daily_stats].
    Without the permission, or when the fetch raises, it changes nothing and
    the stale cache stays.  Otherwise the cache of the guild becomes the
    dictionary of the fetched invites (for a code fetched more than once the
    last invite counts), and, when no storage error occurs, the row of each
    fetched code holds the guild, the inviter id (0 for none), the fetched
    [uses], [max_uses] and [expires_at] and is active, while the rows of all
    other codes are unchanged. *)
Theorem cache_invites_resynchronises guild fetched t :
  let g := guild_id guild in
  let t' := cache_invites guild fetched t in
  invite_stats (tables (db t')) = invite_stats (tables (db t))
  ∧ daily_stats (tables (db t')) = daily_stats (tables (db t))
  ∧ (manage_guild guild = false ∨ fetched = None → t' = t)
  ∧ (manage_guild guild = true → ∀ l, fetched = Some l →
       invite_cache t' = <[g := dict_of_invites l]> (invite_cache t)
       ∧ (∀ k, dict_get k (dict_of_invites l)
               = last (filter (λ invite, code invite = k) l))
       ∧ (no_sqlite_error (2 * length l) (db t) →
          ∀ k, invites (tables (db t')) !! k
               = match dict_get k (dict_of_invites l) with
                 | Some invite => Some (cached_row guild invite)
                 | None => invites (tables (db t)) !! k
                 end)).
Proof.
  intros g t'. subst g t'. split_and!.
  - apply cache_invites_counters.
  - apply cache_invites_counters.
  - intros [Hp| ->].
    + by apply cache_invites_no_permission.
    + unfold cache_invites. by destruct (manage_guild guild).
  - intros Hp l ->. split_and!.
    + by apply cache_invites_cache.
    + intros k. apply dict_get_dict_of_invites.
    + intros Hok k. rewrite dict_get_dict_of_invites.
      by apply cache_invites_rows.
Qed.

(** X9.  Without storage error, running [cache_invites] a second time with
    the same fetched list changes neither the cache nor the tables. *)
Theorem cache_invites_twice guild fetched t :
  sqlite_errors (db t) = [] →
  let t1 := cache_invites guild fetched t in
  let t2 := cache_invites guild fetched t1 in
  invite_cache t2 = invite_cache t1 ∧ tables (db t2) = tables (db t1).
Proof.
  intros He t1 t2. subst t1 t2.
  destruct (manage_guild guild) eqn:Hp.
  2:{ by rewrite !cache_invites_no_permission. }
  destruct fetched as [l|].
  2:{ unfold cache_invites. by rewrite Hp. }
  pose proof (cache_invites_never_raises guild (Some l) t He) as He1.
  split.
  - rewrite !cache_invites_cache by done. by rewrite insert_insert_eq.
  - apply store_eq.
    + apply cache_invites_counters.
    + apply map_eq. intros k.
      rewrite (cache_invites_rows guild l (cache_invites guild (Some l) t))
        by (done || by apply no_sqlite_error_nil).
      rewrite (cache_invites_rows guild l t) by (done || by apply no_sqlite_error_nil).
      by destruct (last _).
    + apply cache_invites_counters.
Qed.

Lemma cache_invites_twice_witness :
  let guild := MkGuild 1 true in
  let l := [MkInvite "X" (Some 7) 3 None None; MkInvite "Y" None 0 (Some 1) None] in
  let t1 := cache_invites guild (Some l) (new_tracker []) in
  let t2 := cache_invites guild (Some l) t1 in
  invite_cache t2 = invite_cache t1 ∧ tables (db t2) = tables (db t1).
Proof.
  intros guild l t1 t2.
  exact (cache_invites_twice guild (Some l) (new_tracker []) eq_refl).
Defined.

(** *** [on_invite_create] and [on_invite_delete] *)

Lemma update_invite_counts_frame guild fetched t d :
  invite_cache t !! guild_id guild = Some d →
  let t' := update_invite_counts guild fetched t in
  invite_cache t' = invite_cache t
  ∧ invites (tables (db t')) = invites (tables (db t))
  ∧ daily_stats (tables (db t')) = daily_stats (tables (db t))
  ∧ ∀ g' u', credited (tables (db t')) g' u' = credited (tables (db t)) g' u'.
Proof.
  intros Hd t'. subst t'.
  pose proof (write_counts_frame (guild_id guild) (invite_counts d) t)
    as (Hinv & Hdaily & Hcr).
  unfold update_invite_counts. rewrite Hd. split_and!; [|done..].
  generalize (invite_counts d). intros counts. clear.
  revert t. induction counts as [|uc counts IH]; intros t; [done|]. simpl.
  by rewrite IH.
Qed.

Lemma dict_set_elem k v d : (k, v) ∈ dict_set k v d.
Proof.
  induction d as [|[k' v'] d IH]; simpl; [left|].
  destruct (decide (k = k')); [left | by right].
Qed.

Lemma dict_del_gone k d : NoDup d.*1 → k ∉ (dict_del k d).*1.
Proof.
  induction d as [|[k' v'] d IH]; csimpl; [intros _; apply not_elem_of_nil|].
  intros [Hk Hnd]%NoDup_cons. destruct (decide (k = k')) as [->|Hne]; [done|].
  csimpl. apply not_elem_of_cons. split; [done | by apply IH].
Qed.

Lemma dict_get_del_ne k k' d : k ≠ k' → dict_get k' (dict_del k d) = dict_get k' d.
Proof.
  intros Hne. induction d as [|[k0 v0] d IH]; simpl; [done|].
  destruct (decide (k = k0)) as [->|Hne0]; simpl.
  - by rewrite decide_False.
  - by rewrite IH.
Qed.

Lemma cache_alter_absent (f : invite_dict → invite_dict)
    (m : gmap Z invite_dict) g :
  m !! g = None → alter f g m = m.
Proof.
  intros Hg. apply map_eq. intros j. destruct (decide (g = j)) as [<-|Hne].
  - by rewrite lookup_alter_eq, Hg.
  - by rewrite lookup_alter_ne.
Qed.

Lemma cached_invites_of_cache t t' g u :
  invite_cache t' = invite_cache t →
  cached_invites_of t' g u = cached_invites_of t g u.
Proof. intros Hc. unfold cached_invites_of. by rewrite Hc. Qed.

(** X10.  Without storage error, [on_invite_create] puts the invite in the
    cache of its guild at its code (creating the cache of the guild when
    there was none, keeping the place of a code that was cached, adding a new
    code last), stores its row with [uses = 0] whatever uses the invite
    carries, leaves every other row of [invites], every [total_uses] and
    [daily_stats] unchanged, and stores for every user that has a cached
    invite of the guild (the creator among them) the number of its cached
    invites. *)
Theorem on_invite_create_effect guild invite fetched t :
  sqlite_errors (db t) = [] →
  let g := guild_id guild in
  let t' := on_invite_create guild invite fetched t in
  let d := default [] (invite_cache t !! g) in
  invite_cache t' = <[g := dict_set (code invite) invite d]> (invite_cache t)
  ∧ invites (tables (db t')) !! code invite
    = Some (InviteRow g (inviter_id_or_0 invite) 0 (max_uses invite)
                      (expires_at invite) true)
  ∧ (∀ k, k ≠ code invite →
          invites (tables (db t')) !! k = invites (tables (db t)) !! k)
  ∧ (∀ u, 0 < cached_invites_of t' g u →
          created (tables (db t')) g u = cached_invites_of t' g u)
  ∧ (∀ u, inviter invite = Some u → 0 < cached_invites_of t' g u)
  ∧ (∀ g' u', credited (tables (db t')) g' u' = credited (tables (db t)) g' u')
  ∧ daily_stats (tables (db t')) = daily_stats (tables (db t)).
Proof.
  intros He g t' d. subst t'. unfold on_invite_create. fold g.
  set (t0 := match invite_cache t !! g with
             | Some _ => t
             | None => with_cache <[g:=[]]> t
             end).
  set (t2 := with_db (add_invite (code invite) g (inviter_id_or_0 invite)
                        (max_uses invite) (expires_at invite))
               (cache_setitem g (code invite) invite t0)).
  assert (db t0 = db t) as Hdb0.
  { subst t0. by destruct (invite_cache t !! g). }
  assert (invite_cache t2 = <[g := dict_set (code invite) invite d]> (invite_cache t))
    as Hc2.
  { subst t2 t0 d. unfold cache_setitem. tracker_simpl.
    destruct (invite_cache t !! g) as [d0|] eqn:Hd0; simpl.
    - by rewrite (alter_present _ _ _ _ Hd0).
    - tracker_simpl.
      rewrite (alter_present _ _ g []) by apply lookup_insert_eq.
      by rewrite insert_insert_eq. }
  assert (invite_cache t2 !! g = Some (dict_set (code invite) invite d)) as Hd2.
  { rewrite Hc2. apply lookup_insert_eq. }
  assert (tables (db t2)
          = add_invite_sql (code invite) g (inviter_id_or_0 invite)
              (max_uses invite) (expires_at invite) (tables (db t))) as Htab.
  { subst t2. unfold cache_setitem. tracker_simpl. rewrite Hdb0.
    unfold add_invite. apply transaction_commits. unfold raises. by rewrite He. }
  assert (sqlite_errors (db t2) = []) as He2.
  { subst t2. unfold cache_setitem. tracker_simpl. rewrite Hdb0.
    by apply transaction_never_raises. }
  destruct (update_invite_counts_frame guild fetched t2 _ Hd2)
    as (Hcache & Hinv & Hdaily & Hcr).
  assert (∀ u, cached_invites_of (update_invite_counts guild fetched t2) g u
               = cached_invites_of t2 g u) as Hcount.
  { intros u. by apply cached_invites_of_cache. }
  subst g. split_and!.
  - by rewrite Hcache.
  - rewrite Hinv, Htab. apply add_invite_sql_row.
  - intros k Hne. rewrite Hinv, Htab. unfold add_invite_sql. simpl.
    by rewrite lookup_insert_ne.
  - intros u Hpos. rewrite Hcount in Hpos |- *.
    destruct (update_invite_counts_snapshot guild fetched t2 _ u Hd2) as [_ ->];
      [by apply no_sqlite_error_nil|].
    by rewrite decide_True.
  - intros u Hu. rewrite Hcount. unfold cached_invites_of. rewrite Hd2. simpl.
    assert ((code invite, invite)
              ∈ filter (λ kv : string * Invite, inviter kv.2 = Some u)
                  (dict_set (code invite) invite d)) as Hin.
    { apply list_elem_of_filter. split; [done | apply dict_set_elem]. }
    destruct (filter _ _); [by apply elem_of_nil in Hin | simpl; lia].
  - intros g' u'. rewrite Hcr, Htab. done.
  - by rewrite Hdaily, Htab.
Qed.

Lemma on_invite_create_effect_witness :
  let guild := MkGuild 1 true in
  let x := MkInvite "X" (Some 7) 4 (Some 10) None in
  let t' := on_invite_create guild x None (new_tracker []) in
  sqlite_errors (db (new_tracker [])) = []
  ∧ invite_cache t' = <[1 := [("X", x)]]> (invite_cache (new_tracker []))
  ∧ invites (tables (db t')) !! "X" = Some (InviteRow 1 7 0 (Some 10) None true)
  ∧ created (tables (db t')) 1 7 = cached_invites_of t' 1 7.
Proof.
  intros guild x t'.
  destruct (on_invite_create_effect guild x None (new_tracker []) eq_refl)
    as (Hc & Hrow & _ & Hcount & Hpos & _).
  split_and!; [done | exact Hc | exact Hrow |].
  apply Hcount. by apply Hpos.
Defined.

(** X11.  [on_invite_delete] on a guild that is not cached marks the code
    inactive and then behaves as [cache_invites].  On a cached guild and
    without storage error it removes the code from the cache of the guild
    and keeps the other cached invites, marks the row of the code inactive
    without deleting it or changing its [uses] (a code without a row gets
    none), leaves every [total_uses] and [daily_stats] unchanged, and stores
    for every user that still has a cached invite of the guild the number of
    its cached invites; the stored [total_invites] of a user with no cached
    invite left is not written. *)
Theorem on_invite_delete_effect guild invite_code fetched t :
  let g := guild_id guild in
  let t' := on_invite_delete guild invite_code fetched t in
  (invite_cache t !! g = None →
   t' = cache_invites guild fetched (with_db (remove_invite invite_code) t))
  ∧ (∀ d, invite_cache t !! g = Some d → NoDup d.*1 →
       sqlite_errors (db t) = [] →
       invite_cache t' = <[g := dict_del invite_code d]> (invite_cache t)
       ∧ dict_get invite_code (dict_del invite_code d) = None
       ∧ (∀ k, k ≠ invite_code →
               dict_get k (dict_del invite_code d) = dict_get k d)
       ∧ invites (tables (db t')) !! invite_code
         = set_inactive <$> invites (tables (db t)) !! invite_code
       ∧ (∀ k, k ≠ invite_code →
               invites (tables (db t')) !! k = invites (tables (db t)) !! k)
       ∧ (∀ u, created (tables (db t')) g u
               = if decide (0 < cached_invites_of t' g u)
                 then cached_invites_of t' g u
                 else created (tables (db t)) g u)
       ∧ (∀ g' u', credited (tables (db t')) g' u' = credited (tables (db t)) g' u')
       ∧ daily_stats (tables (db t')) = daily_stats (tables (db t))).
Proof.
  intros g t'. subst t'. unfold on_invite_delete. fold g. split.
  - intros Hc. subst g.
    assert (cache_delitem (guild_id guild) invite_code t = t) as ->.
    { unfold cache_delitem, with_cache. rewrite cache_alter_absent by done.
      by destruct t. }
    unfold update_invite_counts. tracker_simpl. by rewrite Hc.
  - intros d Hd Hnd He.
    set (t2 := with_db (remove_invite invite_code) (cache_delitem g invite_code t)).
    assert (invite_cache t2 = <[g := dict_del invite_code d]> (invite_cache t))
      as Hc2.
    { subst t2. unfold cache_delitem. tracker_simpl.
      by rewrite (alter_present _ _ _ _ Hd). }
    assert (invite_cache t2 !! g = Some (dict_del invite_code d)) as Hd2.
    { rewrite Hc2. apply lookup_insert_eq. }
    assert (tables (db t2) = remove_invite_sql invite_code (tables (db t))) as Htab.
    { subst t2. unfold cache_delitem. tracker_simpl.
      unfold remove_invite. apply transaction_commits. unfold raises. by rewrite He. }
    assert (sqlite_errors (db t2) = []) as He2.
    { subst t2. unfold cache_delitem. tracker_simpl.
      by apply transaction_never_raises. }
    destruct (update_invite_counts_frame guild fetched t2 _ Hd2)
      as (Hcache & Hinv & Hdaily & Hcr).
    subst g. split_and!.
    + by rewrite Hcache.
    + apply dict_get_None. by apply dict_del_gone.
    + intros k Hne. by apply dict_get_del_ne.
    + rewrite Hinv, Htab. unfold remove_invite_sql. simpl.
      by rewrite lookup_alter_eq.
    + intros k Hne. rewrite Hinv, Htab. unfold remove_invite_sql. simpl.
      by rewrite lookup_alter_ne.
    + intros u. rewrite (cached_invites_of_cache t2 _ (guild_id guild) u Hcache).
      destruct (update_invite_counts_snapshot guild fetched t2 _ u Hd2) as [_ ->];
        [by apply no_sqlite_error_nil|].
      by rewrite Htab.
    + intros g' u'. by rewrite Hcr, Htab.
    + by rewrite Hdaily, Htab.
Qed.

(** *** An invariant of the runs without storage error *)

Lemma steady_cache_invites guild fetched t :
  steady t → steady (cache_invites guild fetched t).
Proof.
  intros (He & Hwf & Hrows).
  destruct (cached_rows_cache_invites guild fetched t He Hrows) as [He' Hrows'].
  split_and!; [done | by apply cache_wf_cache_invites | done].
Qed.

Lemma steady_update_invite_counts guild fetched t :
  steady t → steady (update_invite_counts guild fetched t).
Proof.
  intros (He & Hwf & Hrows).
  destruct (cached_rows_update_invite_counts guild fetched t He Hrows)
    as [He' Hrows'].
  split_and!; [done | by apply cache_wf_update_invite_counts | done].
Qed.

(** X16.  In the runs where sqlite never raises, starting from a new
    tracker, every handler ([cache_invites], [update_invite_counts],
    [on_invite_create], [on_invite_delete], [on_member_join]) keeps this
    true: every code held in a cache has a row in [invites] (so the
    [update_invite_usage] of a member join finds its row), and the cached
    dictionaries have distinct keys. *)
Theorem handlers_keep_steady guild today invite invite_code current fetched t :
  steady (new_tracker [])
  ∧ (steady t →
     steady (cache_invites guild fetched t)
     ∧ steady (update_invite_counts guild fetched t)
     ∧ steady (on_invite_create guild invite fetched t)
     ∧ steady (on_invite_delete guild invite_code fetched t)
     ∧ steady (on_member_join guild today current fetched t)).
Proof.
  split.
  { split_and!; [done | apply map_Forall_empty |].
    apply (cached_rows_handlers guild today invite invite_code current fetched t). }
  intros Hs. split_and!.
  - by apply steady_cache_invites.
  - by apply steady_update_invite_counts.
  - destruct Hs as (He & Hwf & Hrows). split_and!.
    + unfold on_invite_create. apply update_invite_counts_never_raises.
      unfold cache_setitem. tracker_simpl. apply transaction_never_raises.
      by destruct (invite_cache t !! guild_id guild).
    + by apply (cache_wf_handlers guild today invite invite_code current fetched t).
    + by apply (cached_rows_handlers guild today invite invite_code current fetched t).
  - destruct Hs as (He & Hwf & Hrows). split_and!.
    + unfold on_invite_delete. apply update_invite_counts_never_raises.
      unfold cache_delitem. tracker_simpl. by apply transaction_never_raises.
    + by apply (cache_wf_handlers guild today invite invite_code current fetched t).
    + by apply (cached_rows_handlers guild today invite invite_code current fetched t).
  - destruct Hs as (He & Hwf & Hrows). split_and!.
    + unfold on_member_join. destruct (manage_guild guild); simpl; [|done].
      destruct current as [l|]; [|done].
      apply cache_invites_never_raises. unfold find_used_invite.
      destruct (invite_cache t !! guild_id guild) as [cached|] eqn:Hc; [|done].
      apply cached_rows_compare_with_cached; [|done|done].
      apply Forall_forall. intros [k v] Hin. simpl.
      apply (Hrows (guild_id guild) cached k Hc).
      apply list_elem_of_fmap. by exists (k, v).
    + by apply (cache_wf_handlers guild today invite invite_code current fetched t).
    + by apply (cached_rows_handlers guild today invite invite_code current fetched t).
Qed.

(** *** Creating and deleting an invite *)

Lemma on_invite_create_cache guild invite fetched t :
  invite_cache (on_invite_create guild invite fetched t)
  = <[guild_id guild :=
        dict_set (code invite) invite
          (default [] (invite_cache t !! guild_id guild))]> (invite_cache t).
Proof.
  unfold on_invite_create.
  set (t0 := match invite_cache t !! guild_id guild with
             | Some _ => t
             | None => with_cache <[guild_id guild:=[]]> t
             end).
  set (t2 := with_db _ (cache_setitem (guild_id guild) (code invite) invite t0)).
  assert (invite_cache t2
          = <[guild_id guild :=
                dict_set (code invite) invite
                  (default [] (invite_cache t !! guild_id guild))]> (invite_cache t))
    as Hc2.
  { subst t2 t0. unfold cache_setitem. tracker_simpl.
    destruct (invite_cache t !! guild_id guild) as [d0|] eqn:Hd0; simpl.
    - by rewrite (alter_present _ _ _ _ Hd0).
    - tracker_simpl.
      rewrite (alter_present _ _ (guild_id guild) []) by apply lookup_insert_eq.
      by rewrite insert_insert_eq. }
  assert (invite_cache t2 !! guild_id guild
          = Some (dict_set (code invite) invite
                    (default [] (invite_cache t !! guild_id guild)))) as Hd2.
  { rewrite Hc2. apply lookup_insert_eq. }
  destruct (update_invite_counts_frame guild fetched t2 _ Hd2) as (-> & _).
  exact Hc2.
Qed.

Lemma on_invite_delete_cache guild invite_code fetched t d :
  invite_cache t !! guild_id guild = Some d →
  invite_cache (on_invite_delete guild invite_code fetched t)
  = <[guild_id guild := dict_del invite_code d]> (invite_cache t).
Proof.
  intros Hd. unfold on_invite_delete.
  set (t2 := with_db _ (cache_delitem (guild_id guild) invite_code t)).
  assert (invite_cache t2
          = <[guild_id guild := dict_del invite_code d]> (invite_cache t)) as Hc2.
  { subst t2. unfold cache_delitem. tracker_simpl.
    by rewrite (alter_present _ _ _ _ Hd). }
  assert (invite_cache t2 !! guild_id guild = Some (dict_del invite_code d)) as Hd2.
  { rewrite Hc2. apply lookup_insert_eq. }
  destruct (update_invite_counts_frame guild fetched t2 _ Hd2) as (-> & _).
  exact Hc2.
Qed.

Lemma dict_del_set_new k v d : k ∉ d.*1 → dict_del k (dict_set k v d) = d.
Proof.
  induction d as [|[k0 v0] d IH]; csimpl; intros Hk.
  - by rewrite decide_True.
  - apply not_elem_of_cons in Hk as [Hne Hk].
    rewrite decide_False by done. simpl. rewrite decide_False by done.
    by rewrite IH.
Qed.

(** X17.  Creating an invite whose code is not yet cached in a cached guild
    and then deleting it gives back the cache as it was, whatever storage
    errors occur; when none occurs the row of the code stays in [invites],
    inactive, with the metadata written at the creation. *)
Theorem create_then_delete guild invite fetched refetched t d :
  invite_cache t !! guild_id guild = Some d →
  code invite ∉ d.*1 →
  let t' := on_invite_delete guild (code invite) refetched
              (on_invite_create guild invite fetched t) in
  invite_cache t' = invite_cache t
  ∧ (sqlite_errors (db t) = [] →
     invites (tables (db t')) !! code invite
     = Some (InviteRow (guild_id guild) (inviter_id_or_0 invite) 0
                       (max_uses invite) (expires_at invite) false)).
Proof.
  intros Hd Hnew t'. subst t'.
  set (t1 := on_invite_create guild invite fetched t).
  assert (invite_cache t1
          = <[guild_id guild := dict_set (code invite) invite d]> (invite_cache t))
    as Hc1.
  { subst t1. rewrite on_invite_create_cache. by rewrite Hd. }
  assert (invite_cache t1 !! guild_id guild
          = Some (dict_set (code invite) invite d)) as Hd1.
  { rewrite Hc1. apply lookup_insert_eq. }
  split.
  - rewrite (on_invite_delete_cache _ _ _ _ _ Hd1), Hc1.
    rewrite insert_insert_eq, dict_del_set_new by done. by apply insert_id.
  - intros He.
    assert (steady_errors : sqlite_errors (db t1) = []).
    { subst t1. unfold on_invite_create. apply update_invite_counts_never_raises.
      unfold cache_setitem. tracker_simpl. apply transaction_never_raises.
      by destruct (invite_cache t !! guild_id guild). }
    assert (invites (tables (db t1)) !! code invite
            = Some (InviteRow (guild_id guild) (inviter_id_or_0 invite) 0
                      (max_uses invite) (expires_at invite) true)) as Hrow1.
    { subst t1. unfold on_invite_create. rewrite Hd.
      set (t2 := with_db _ (cache_setitem (guild_id guild) (code invite) invite t)).
      assert (invite_cache t2 !! guild_id guild
              = Some (dict_set (code invite) invite d)) as Hd2.
      { subst t2. unfold cache_setitem. tracker_simpl.
        by rewrite lookup_alter_eq, Hd. }
      destruct (update_invite_counts_frame guild fetched t2 _ Hd2) as (_ & -> & _).
      subst t2. unfold cache_setitem. tracker_simpl.
      unfold add_invite. rewrite transaction_commits
        by (unfold raises; by rewrite He).
      apply add_invite_sql_row. }
    unfold on_invite_delete.
    set (t3 := with_db _ (cache_delitem (guild_id guild) (code invite) t1)).
    assert (invite_cache t3 !! guild_id guild
            = Some (dict_del (code invite) (dict_set (code invite) invite d)))
      as Hd3.
    { subst t3. unfold cache_delitem. tracker_simpl.
      by rewrite lookup_alter_eq, Hd1. }
    destruct (update_invite_counts_frame guild refetched t3 _ Hd3) as (_ & -> & _).
    subst t3. unfold cache_delitem. tracker_simpl.
    unfold remove_invite. rewrite transaction_commits
      by (unfold raises; by rewrite steady_errors).
    unfold remove_invite_sql. simpl. by rewrite lookup_alter_eq, Hrow1.
Qed.

Lemma create_then_delete_witness :
  let guild := MkGuild 1 true in
  let x := MkInvite "X" (Some 7) 0 None None in
  let y := MkInvite "Y" (Some 8) 0 (Some 1) None in
  let t := on_invite_create guild x None (new_tracker []) in
  let t' := on_invite_delete guild "Y" None (on_invite_create guild y None t) in
  invite_cache t !! 1 = Some [("X", x)]
  ∧ invite_cache t' = invite_cache t
  ∧ invites (tables (db t')) !! "Y"
    = Some (InviteRow 1 8 0 (Some 1) None false).
Proof.
  intros guild x y t t'.
  assert (invite_cache t !! guild_id guild = Some [("X", x)]) as Hd
    by (vm_compute; reflexivity).
  assert (code y ∉ [("X", x)].*1) as Hnew.
  { apply (bool_decide_unpack _). vm_compute. exact I. }
  destruct (create_then_delete guild y None None t [("X", x)] Hd Hnew)
    as [Hcache Hrow].
  split_and!; [exact Hd | exact Hcache |]. apply Hrow. vm_compute. reflexivity.
Defined.

End TrackerLaws.

(** ** Properties of the bot *)

Module BotFacts.
Import Database Tracker Bot DatabaseFacts TrackerFacts DatabaseLaws TrackerLaws.

Lemma same_elsewhere_cache_and_count guild fetched refetched t :
  same_elsewhere (guild_id guild) t (cache_and_count guild fetched refetched t).
Proof.
  unfold cache_and_count.
  eapply same_elsewhere_trans; [apply same_elsewhere_cache_invites|].
  apply same_elsewhere_update_invite_counts.
Qed.

Lemma cache_and_count_never_raises guild fetched refetched t :
  sqlite_errors (db t) = [] →
  sqlite_errors (db (cache_and_count guild fetched refetched t)) = [].
Proof.
  intros He. unfold cache_and_count.
  by apply update_invite_counts_never_raises, cache_invites_never_raises.
Qed.

Lemma cache_and_count_fetched guild l refetched t u :
  manage_guild guild = true → sqlite_errors (db t) = [] →
  let g := guild_id guild in
  let t' := cache_and_count guild (Some l) refetched t in
  invite_cache t' = <[g := dict_of_invites l]> (invite_cache t)
  ∧ created (tables (db t')) g u
    = if decide (0 < cached_invites_of t' g u) then cached_invites_of t' g u
      else created (tables (db t)) g u.
Proof.
  intros Hp He g t'. subst g t'. unfold cache_and_count.
  set (t1 := cache_invites guild (Some l) t).
  assert (invite_cache t1 = <[guild_id guild := dict_of_invites l]> (invite_cache t))
    as Hc1 by (by apply cache_invites_cache).
  assert (invite_cache t1 !! guild_id guild = Some (dict_of_invites l)) as Hd1.
  { rewrite Hc1. apply lookup_insert_eq. }
  destruct (update_invite_counts_frame guild refetched t1 _ Hd1) as (Hcache & _).
  split; [by rewrite Hcache|].
  rewrite (cached_invites_of_cache t1 _ (guild_id guild) u Hcache).
  destruct (update_invite_counts_snapshot guild refetched t1 _ u Hd1) as [_ ->].
  { apply no_sqlite_error_nil. by apply cache_invites_never_raises. }
  subst t1. unfold created, get_user_stats_sql.
  by destruct (cache_invites_counters guild (Some l) t) as [-> _].
Qed.

(** X12.  [cache_invites] followed by [update_invite_counts], as
    [on_guild_join], [refresh_command] and the loop of [on_ready] run them:
    when the bot may fetch, the fetch succeeds and no storage error occurs,
    the cache of the guild is the dictionary of the fetched invites, every
    user with a cached invite has its number of cached invites stored, the
    stored [total_invites] of the other users is not written, and no
    [total_uses] or [daily_stats] row changes.  When the guild is not cached
    and the first fetch is refused or fails, the second fetch alone fills the
    cache and no count is written. *)
Theorem cache_and_count_effect guild fetched refetched t :
  let g := guild_id guild in
  let t' := cache_and_count guild fetched refetched t in
  (invite_cache t !! g = None → manage_guild guild = false ∨ fetched = None →
   t' = cache_invites guild refetched t)
  ∧ (manage_guild guild = true → ∀ l, fetched = Some l →
     sqlite_errors (db t) = [] →
     invite_cache t' = <[g := dict_of_invites l]> (invite_cache t)
     ∧ (∀ u, created (tables (db t')) g u
             = if decide (0 < cached_invites_of t' g u)
               then cached_invites_of t' g u
               else created (tables (db t)) g u)
     ∧ (∀ g' u', credited (tables (db t')) g' u' = credited (tables (db t)) g' u')
     ∧ daily_stats (tables (db t')) = daily_stats (tables (db t))).
Proof.
  intros g t'. subst g t'. split.
  - intros Hc Hfail. unfold cache_and_count.
    assert (cache_invites guild fetched t = t) as ->.
    { destruct Hfail as [Hp| ->]; [by apply cache_invites_no_permission|].
      unfold cache_invites. by destruct (manage_guild guild). }
    unfold update_invite_counts. by rewrite Hc.
  - intros Hp l -> He. split_and!.
    + by apply (cache_and_count_fetched guild l refetched t 0).
    + intros u. by apply (cache_and_count_fetched guild l refetched t u).
    + intros g' u'. unfold cache_and_count.
      set (t1 := cache_invites guild (Some l) t).
      assert (invite_cache t1 !! guild_id guild = Some (dict_of_invites l)) as Hd1.
      { subst t1. rewrite cache_invites_cache by done. apply lookup_insert_eq. }
      destruct (update_invite_counts_frame guild refetched t1 _ Hd1)
        as (_ & _ & _ & ->).
      subst t1. unfold credited, get_user_stats_sql.
      by destruct (cache_invites_counters guild (Some l) t) as [-> _].
    + unfold cache_and_count.
      set (t1 := cache_invites guild (Some l) t).
      assert (invite_cache t1 !! guild_id guild = Some (dict_of_invites l)) as Hd1.
      { subst t1. rewrite cache_invites_cache by done. apply lookup_insert_eq. }
      destruct (update_invite_counts_frame guild refetched t1 _ Hd1)
        as (_ & _ & -> & _).
      subst t1. apply cache_invites_counters.
Qed.

(** *** [on_ready] *)

(** *** [on_ready] *)

Lemma same_elsewhere_readers g t t' g' u :
  same_elsewhere g t t' → g' ≠ g →
  invite_cache t' !! g' = invite_cache t !! g'
  ∧ created (tables (db t')) g' u = created (tables (db t)) g' u
  ∧ cached_invites_of t' g' u = cached_invites_of t g' u.
Proof.
  intros (Hc & Hs & _) Hne. split_and!.
  - by apply Hc.
  - unfold created, get_user_stats_sql. by rewrite Hs.
  - unfold cached_invites_of. by rewrite Hc.
Qed.

Lemma visited_ok_step done guild l r t :
  visited_ok done t → manage_guild guild = true →
  guild_id guild ∉ guild_id <$> done.*1.*1 →
  visited_ok (done ++ [(guild, Some l, r)])
    (cache_and_count guild (Some l) r t).
Proof.
  intros (He & Hdone & Hfresh) Hp Hnew.
  pose proof (same_elsewhere_cache_and_count guild (Some l) r t) as Hframe.
  split_and!.
  - by apply cache_and_count_never_raises.
  - intros guild' l' r' [Hin|Hin]%elem_of_app.
    + assert (guild_id guild' ≠ guild_id guild) as Hne.
      { intros Heq. apply Hnew. rewrite <- Heq.
        apply list_elem_of_fmap. exists guild'. split; [done|].
        apply list_elem_of_fmap. exists (guild', Some l'). split; [done|].
        apply list_elem_of_fmap. by exists (guild', Some l', r'). }
      destruct (Hdone guild' l' r' Hin) as [Hc Hcount]. split.
      * by destruct (same_elsewhere_readers _ _ _ _ 0 Hframe Hne) as (-> & _).
      * intros u.
        destruct (same_elsewhere_readers _ _ _ _ u Hframe Hne) as (_ & -> & ->).
        apply Hcount.
    + apply list_elem_of_singleton in Hin as [= -> -> ->]. split.
      * destruct (cache_and_count_fetched guild l r t 0 Hp He) as [-> _].
        apply lookup_insert_eq.
      * intros u.
        destruct (cache_and_count_fetched guild l r t u Hp He) as [_ ->].
        case_decide as Hpos; [done|].
        rewrite Hfresh by done.
        unfold cached_invites_of in *. lia.
  - intros g u Hg.
    rewrite !fmap_app, elem_of_app in Hg. csimpl in Hg.
    rewrite list_elem_of_singleton in Hg.
    assert (g ≠ guild_id guild) as Hne by tauto.
    destruct (same_elsewhere_readers _ _ _ _ u Hframe Hne) as (_ & -> & _).
    apply Hfresh. tauto.
Qed.

Lemma visited_ok_all guilds :
  Forall (λ v : Guild * option (list Invite) * option (list Invite),
            manage_guild v.1.1 = true ∧ is_Some v.1.2) guilds →
  NoDup (guild_id <$> guilds.*1.*1) →
  visited_ok guilds
    (foldl (λ t v, cache_and_count v.1.1 v.1.2 v.2 t) (new_tracker []) guilds).
Proof.
  induction guilds as [|[[guild f] r] guilds IH] using rev_ind; intros Hall Hnd.
  - split_and!; [done | by intros ??? ?%elem_of_nil | done].
  - apply Forall_app in Hall as [Hall Hv].
    apply (proj1 (Forall_singleton _ _)) in Hv. simpl in Hv.
    destruct Hv as [Hp [l ->]].
    rewrite !fmap_app in Hnd. csimpl in Hnd.
    apply NoDup_app in Hnd as (Hnd & Hnew & _).
    rewrite foldl_app. simpl.
    apply visited_ok_step; [by apply IH | done |].
    intros Hin. apply (Hnew _ Hin). left.
Qed.

(** X13.  [on_ready] on a new bot with an empty database: when the bot may
    fetch in every guild, every first fetch succeeds, the guilds are distinct
    and no storage error occurs, then for every guild the cache is the
    dictionary of its fetched invites and the stored [total_invites] of
    every user equals the number of cached invites of that user in that
    guild.  The bot is ready afterwards, and a later [on_ready] changes
    nothing. *)
Theorem on_ready_counts guilds :
  Forall (λ v : Guild * option (list Invite) * option (list Invite),
            manage_guild v.1.1 = true ∧ is_Some v.1.2) guilds →
  NoDup (guild_id <$> guilds.*1.*1) →
  let b := on_ready guilds (new_bot []) in
  is_ready b = true
  ∧ (∀ guilds', on_ready guilds' b = b)
  ∧ (∀ guild l r, (guild, Some l, r) ∈ guilds →
       invite_cache (invite_tracker b) !! guild_id guild
         = Some (dict_of_invites l)
       ∧ ∀ u, created (tables (db (invite_tracker b))) (guild_id guild) u
              = cached_invites_of (invite_tracker b) (guild_id guild) u).
Proof.
  intros Hall Hnd b. subst b. unfold on_ready at 1 3 4. simpl.
  split_and!; [done | done |].
  by destruct (visited_ok_all guilds Hall Hnd) as (_ & Hdone & _).
Qed.

Lemma on_ready_counts_witness :
  let x := MkInvite "X" (Some 7) 0 None None in
  let y := MkInvite "Y" (Some 7) 2 None None in
  let z := MkInvite "Z" (Some 8) 0 (Some 1) None in
  let guilds := [(MkGuild 1 true, Some [x; y], None);
                 (MkGuild 2 true, Some [z], None)] in
  let b := on_ready guilds (new_bot []) in
  created (tables (db (invite_tracker b))) 1 7 = 2
  ∧ created (tables (db (invite_tracker b))) 1 7
    = cached_invites_of (invite_tracker b) 1 7.
Proof.
  intros x y z guilds b.
  assert (Forall (λ v : Guild * option (list Invite) * option (list Invite),
                    manage_guild v.1.1 = true ∧ is_Some v.1.2) guilds) as Hall.
  { repeat constructor; by eexists. }
  assert (NoDup (guild_id <$> guilds.*1.*1)) as Hnd.
  { apply (bool_decide_unpack _). vm_compute. exact I. }
  split; [vm_compute; reflexivity|].
  destruct (on_ready_counts guilds Hall Hnd) as (_ & _ & Hcount).
  refine (proj2 (Hcount (MkGuild 1 true) [x; y] None _) 7). left.
Defined.

End BotFacts.

(** ** Properties of the leaderboard manager *)

Module LeaderboardFacts.
Import Database Tracker Leaderboard DatabaseFacts TrackerFacts DatabaseLaws.

Lemma leaderboard_data_order today gi ty db :
  let data := (leaderboard_data today gi ty db).1 in
  (raises db = true → data = [])
  ∧ (length data ≤ 10)%nat
  ∧ NoDup data.*1
  ∧ StronglySorted recent_order data.
Proof.
  intros data. subst data. unfold leaderboard_data.
  destruct (is_daily ty).
  - unfold get_daily_leaderboard, query. simpl.
    destruct (raises db).
    { split_and!; [done | simpl; lia | apply NoDup_nil_2 | constructor]. }
    unfold get_daily_leaderboard_sql. split_and!; [done | | |].
    + apply (sql_limit_length 10). lia.
    + eapply sublist_NoDup; [|apply sql_limit_fmap_sublist].
      rewrite merge_sort_Permutation. apply group_by_user_NoDup.
    + apply sql_limit_sorted, StronglySorted_merge_sort; apply _.
  - unfold get_leaderboard, query. simpl.
    destruct (raises db).
    { split_and!; [done | simpl; lia | apply NoDup_nil_2 | constructor]. }
    unfold get_leaderboard_sql. split_and!; [done | | |].
    + rewrite length_fmap. apply (sql_limit_length 10). lia.
    + rewrite <- list_fmap_compose.
      eapply sublist_NoDup; [|apply sql_limit_fmap_sublist].
      rewrite merge_sort_Permutation, <- list_fmap_compose.
      apply leaderboard_rows_NoDup.
    + apply (StronglySorted_fmap _ leaderboard_order).
      * unfold leaderboard_order, recent_order. intros x y. simpl. lia.
      * apply sql_limit_sorted, StronglySorted_merge_sort; apply _.
Qed.

(** X14.  [create_leaderboard_embed], for both kinds of leaderboard: the
    entries are those of the query, at most 10, one per user, in descending
    order of the count shown.  When the query finds no row, or meets a
    storage error, the embed carries the single field "No Data Available"
    and no footer (it is not the error embed); otherwise it carries one
    field, named by the value label, whose text is one line per entry in
    that order, and the footer naming the guild. *)
Theorem create_leaderboard_embed_shape now today fetch_user gi ty db :
  let data := (leaderboard_data today gi ty db).1 in
  let embed := (create_leaderboard_embed now today fetch_user gi ty db).1 in
  let label := leaderboard_value_label ty in
  (raises db = true → data = [])
  ∧ (length data ≤ 10)%nat
  ∧ NoDup data.*1
  ∧ StronglySorted recent_order data
  ∧ title embed = leaderboard_title ty
  ∧ (data = [] →
     fields embed = [MkField "No Data Available"
                             "No invite statistics found for this server." false]
     ∧ footer embed = None)
  ∧ (data ≠ [] →
     fields embed
       = [MkField label
            (concat_lines (imap (leaderboard_line fetch_user gi label) data))
            false]
     ∧ footer embed = Some ("Requested by " +:+ guild_name gi, guild_icon_url gi)).
Proof.
  intros data embed label.
  destruct (leaderboard_data_order today gi ty db) as (Hraise & Hlen & Hnd & Hsort).
  split_and!; [done..| | |]; subst data embed label;
    unfold create_leaderboard_embed;
    destruct (leaderboard_data today gi ty db) as [[|x data] db']; simpl; done.
Qed.

(** X15.  [create_user_stats_embed] shows the stored [total_invites] and
    [total_uses] of the user, and "0" and "0" when the user has no row or
    the query meets a storage error (never the error embed).  The field
    "Success Rate" is present exactly when [total_invites] is positive, so
    the rate is never computed with a zero divisor: the embed does not
    depend on what the rate would be for [total_invites <= 0]. *)
Theorem create_user_stats_embed_fields now format_rate gi user db :
  let embed := (create_user_stats_embed now format_rate gi user db).1 in
  let row := invite_stats (tables db) !! (member_id user, guild_id (info_guild gi)) in
  (raises db = true ∨ row = None →
   fields embed = [MkField "Total Invites Created" "0" true;
                   MkField "Total Successful Invites" "0" true])
  ∧ (raises db = false → ∀ ti tu, row = Some (StatsRow ti tu) →
     fields embed
     = [MkField "Total Invites Created" (pretty ti) true;
        MkField "Total Successful Invites" (pretty tu) true]
       ++ (if decide (0 < ti)
           then [MkField "Success Rate" (format_rate ti tu) true] else []))
  ∧ (∀ format_rate',
       (∀ ti tu, 0 < ti → format_rate' ti tu = format_rate ti tu) →
       create_user_stats_embed now format_rate' gi user db
       = create_user_stats_embed now format_rate gi user db).
Proof.
  intros embed row. subst embed row.
  unfold create_user_stats_embed, get_user_stats, query, get_user_stats_sql.
  simpl. split_and!.
  - intros [-> | Hrow]; [done|]. rewrite Hrow. by destruct (raises db).
  - intros -> ti tu ->. simpl. by case_decide.
  - intros format_rate' Hsame.
    destruct (raises db); [done|].
    destruct (invite_stats (tables db) !! (member_id user, guild_id (info_guild gi)))
      as [[ti tu]|]; simpl; [|done].
    case_decide; [|done]. by rewrite Hsame.
Qed.

End LeaderboardFacts.
